(** * FontX: the "X version" font generator, embedded and verified

    Shallow embedding of [fontforge_x_version_font_generate.py]:
    the class [FontX] with its methods [__init__], [modify] and [install].

    - Python integers are [Z]; Python floats are IEEE-754 binary64 values,
      represented by the [spec_float] of the standard library with
      [prec = 53] and [emax = 1024].
    - Exceptions are values of [PyExc]; a computation that can raise
      returns a [result].
    - Calls to external collaborators (file system, FontForge, shell) are
      recorded, in order, in an effect log that is threaded through the
      methods. *)

From Stdlib Require Import ZArith QArith Qround Qpower Lia Lqa.
From Stdlib Require Import Bool Ascii String List.
From Stdlib Require Import Floats.SpecFloat.
Import ListNotations.

Local Open Scope Z_scope.

(** ** Exceptions and results *)

(** The built-in exception classes that the statements of the program can
    raise, and [InvalidMetricError], the error that the specification names
    for a bad em size: no statement of the program raises it. *)
Inductive PyExc : Type :=
  | ZeroDivisionError
  | OverflowError
  | ValueError
  | TypeError
  | KeyError
  | AttributeError
  | OSError
  | InvalidMetricError.

Definition result (A : Type) : Type := (PyExc + A)%type.

Definition rbind {A B : Type} (r : result A) (k : A -> result B) : result B :=
  match r with
  | inl e => inl e
  | inr a => k a
  end.

Declare Scope result_scope.
Delimit Scope result_scope with result.
Notation "x <- r ;; k" := (rbind r (fun x => k))
  (at level 61, r at next level, right associativity) : result_scope.

(** ** Python numbers *)

Module PyNum.

(** binary64 *)
Definition prec : Z := 53.
Definition emax : Z := 1024.

Abbreviation float := spec_float.

(** [a / b] on two Python ints: true division.  The quotient is the
    correctly rounded (nearest, ties to even) binary64 value of the exact
    rational; a zero divisor raises [ZeroDivisionError], a quotient too
    large for a float raises [OverflowError]. *)
Definition int_truediv (a b : Z) : result float :=
  if b =? 0 then inl ZeroDivisionError
  else if a =? 0 then inr (S754_zero (b <? 0))
  else
    let '(mz, ez, lz) := SFdiv_core_binary prec emax (Z.abs a) 0 (Z.abs b) 0 in
    match binary_round_aux prec emax (xorb (a <? 0) (b <? 0)) mz ez lz with
    | S754_infinity _ => inl OverflowError
    | f => inr f
    end.

(** Conversion of the int operand in [float * int]: correctly rounded,
    [OverflowError] when the int is too large. *)
Definition float_of_int (z : Z) : result float :=
  match binary_normalize prec emax z 0 false with
  | S754_infinity _ => inl OverflowError
  | f => inr f
  end.

(** [x * y] on two floats. *)
Definition float_mul (x y : float) : float := SFmul prec emax x y.

(** ceiling of the dyadic number [z * 2 ^ e] *)
Definition ceil_dyadic (z e : Z) : Z :=
  if 0 <=? e then z * 2 ^ e else - ((- z) / 2 ^ (- e)).

(** [math.ceil(x)] on a float: an exact int; [OverflowError] on an
    infinity, [ValueError] on a NaN. *)
Definition math_ceil (x : float) : result Z :=
  match x with
  | S754_nan => inl ValueError
  | S754_infinity _ => inl OverflowError
  | S754_zero _ => inr 0
  | S754_finite s m e => inr (ceil_dyadic (cond_Zopp s (Z.pos m)) e)
  end.

(** The exact ceiling of the rational [n / d], for [0 < d]. *)
Definition exact_ceil (n d : Z) : Z := - ((- n) / d).

End PyNum.
Import PyNum.

(** ** Strings *)

Definition newline : string := String (ascii_of_nat 10) EmptyString.

(** [sub in s] *)
Fixpoint contains (sub s : string) : bool :=
  if String.prefix sub s then true
  else match s with
       | EmptyString => false
       | String _ s' => contains sub s'
       end.

(** ** POSIX paths ([pathlib.PurePosixPath], [os.path]) *)

Module PosixPath.

Inductive Root : Type := NoRoot | Slash | DoubleSlash.

Record Path : Type := { root : Root; parts : list string }.

Definition slash : ascii := "/"%char.

(** [s.split('/')] *)
Fixpoint split_slash (s : string) : list string :=
  match s with
  | EmptyString => [EmptyString]
  | String a s' =>
      if Ascii.eqb a slash then EmptyString :: split_slash s'
      else match split_slash s' with
           | hd :: tl => String a hd :: tl
           | [] => [String a EmptyString]
           end
  end.

(** [posixpath.splitroot]: exactly two leading slashes make the root
    ["//"], one or more than two make it ["/"] *)
Definition root_of (s : string) : Root :=
  match s with
  | String a (String b (String c _)) =>
      if Ascii.eqb a slash then
        if Ascii.eqb b slash then
          if Ascii.eqb c slash then Slash else DoubleSlash
        else Slash
      else NoRoot
  | String a (String b EmptyString) =>
      if Ascii.eqb a slash then
        if Ascii.eqb b slash then DoubleSlash else Slash
      else NoRoot
  | String a EmptyString => if Ascii.eqb a slash then Slash else NoRoot
  | EmptyString => NoRoot
  end.

Definition is_component (c : string) : bool :=
  negb (String.eqb c EmptyString || String.eqb c ".")%bool.

(** [Path(s)]: empty and ["."] components are dropped *)
Definition parse (s : string) : Path :=
  {| root := root_of s; parts := filter is_component (split_slash s) |}.

(** [p / s] *)
Definition join (p : Path) (s : string) : Path :=
  let q := parse s in
  match root q with
  | NoRoot => {| root := root p; parts := parts p ++ parts q |}
  | _ => q
  end.

(** [p.parent] *)
Definition parent (p : Path) : Path :=
  {| root := root p; parts := removelast (parts p) |}.

(** [p.name] *)
Definition name (p : Path) : string := last (parts p) EmptyString.

(** [p.suffix]: the final component from its last dot on, if that dot is
    neither its first nor its last character *)
Fixpoint rfind_dot (s : string) : option string :=
  match s with
  | EmptyString => None
  | String a s' =>
      match rfind_dot s' with
      | Some t => Some t
      | None => if Ascii.eqb a "."%char then Some s else None
      end
  end.

Definition suffix_of_name (n : string) : string :=
  match n with
  | EmptyString => EmptyString
  | String a rest =>
      match rfind_dot rest with
      | Some (String _ (String b t)) => String "."%char (String b t)
      | _ => EmptyString
      end
  end.

Definition suffix (p : Path) : string := suffix_of_name (name p).

(** [os.path.isabs(s)] *)
Definition isabs (s : string) : bool :=
  match s with
  | String a _ => Ascii.eqb a slash
  | EmptyString => false
  end.

(** one step of [os.path.normpath] on an absolute path: [".."] pops a
    component (nothing is above the root), any other component is pushed *)
Definition norm_step (stack : list string) (c : string) : list string :=
  if String.eqb c ".." then removelast stack else stack ++ [c].

(** [os.path.abspath(p)], for the current directory [cwd] *)
Definition abspath (cwd : list string) (p : Path) : Path :=
  match root p with
  | NoRoot => {| root := Slash; parts := fold_left norm_step (cwd ++ parts p) [] |}
  | r => {| root := r; parts := fold_left norm_step (parts p) [] |}
  end.

End PosixPath.
Import PosixPath.

(** a [str] or a [Path], as [self.source_file] can be either *)
Inductive PathLike : Type :=
  | PLStr (s : string)
  | PLPath (p : Path).

(** ** The font document (FontForge's [font] object) *)

(** The attributes that the program reads or assigns.  The metrics are the
    ints that FontForge hands to Python; [em] is read once, before [ascent]
    is assigned. *)
Record Glyph : Type := { width : Z }.

Record Font : Type := {
  fontname : string;
  familyname : string;
  fullname : string;
  glyphs : string -> option Glyph;
  em : Z;
  ascent : Z;
  descent : Z;
  os2_winascent : Z;
  os2_windescent : Z;
  os2_typoascent : Z;
  os2_typodescent : Z;
  hhea_ascent : Z;
  hhea_descent : Z;
  upos : Z;
  comment : string;
  copyright : string
}.

(** Attribute assignments [font.attr = v]. *)

Definition set_fontname (v : string) (f : Font) : Font :=
  {| fontname := v; familyname := familyname f; fullname := fullname f;
     glyphs := glyphs f; em := em f; ascent := ascent f; descent := descent f;
     os2_winascent := os2_winascent f; os2_windescent := os2_windescent f;
     os2_typoascent := os2_typoascent f; os2_typodescent := os2_typodescent f;
     hhea_ascent := hhea_ascent f; hhea_descent := hhea_descent f;
     upos := upos f; comment := comment f; copyright := copyright f |}.

Definition set_familyname (v : string) (f : Font) : Font :=
  {| fontname := fontname f; familyname := v; fullname := fullname f;
     glyphs := glyphs f; em := em f; ascent := ascent f; descent := descent f;
     os2_winascent := os2_winascent f; os2_windescent := os2_windescent f;
     os2_typoascent := os2_typoascent f; os2_typodescent := os2_typodescent f;
     hhea_ascent := hhea_ascent f; hhea_descent := hhea_descent f;
     upos := upos f; comment := comment f; copyright := copyright f |}.

Definition set_fullname (v : string) (f : Font) : Font :=
  {| fontname := fontname f; familyname := familyname f; fullname := v;
     glyphs := glyphs f; em := em f; ascent := ascent f; descent := descent f;
     os2_winascent := os2_winascent f; os2_windescent := os2_windescent f;
     os2_typoascent := os2_typoascent f; os2_typodescent := os2_typodescent f;
     hhea_ascent := hhea_ascent f; hhea_descent := hhea_descent f;
     upos := upos f; comment := comment f; copyright := copyright f |}.

Definition set_ascent (v : Z) (f : Font) : Font :=
  {| fontname := fontname f; familyname := familyname f; fullname := fullname f;
     glyphs := glyphs f; em := em f; ascent := v; descent := descent f;
     os2_winascent := os2_winascent f; os2_windescent := os2_windescent f;
     os2_typoascent := os2_typoascent f; os2_typodescent := os2_typodescent f;
     hhea_ascent := hhea_ascent f; hhea_descent := hhea_descent f;
     upos := upos f; comment := comment f; copyright := copyright f |}.

Definition set_descent (v : Z) (f : Font) : Font :=
  {| fontname := fontname f; familyname := familyname f; fullname := fullname f;
     glyphs := glyphs f; em := em f; ascent := ascent f; descent := v;
     os2_winascent := os2_winascent f; os2_windescent := os2_windescent f;
     os2_typoascent := os2_typoascent f; os2_typodescent := os2_typodescent f;
     hhea_ascent := hhea_ascent f; hhea_descent := hhea_descent f;
     upos := upos f; comment := comment f; copyright := copyright f |}.

Definition set_os2_winascent (v : Z) (f : Font) : Font :=
  {| fontname := fontname f; familyname := familyname f; fullname := fullname f;
     glyphs := glyphs f; em := em f; ascent := ascent f; descent := descent f;
     os2_winascent := v; os2_windescent := os2_windescent f;
     os2_typoascent := os2_typoascent f; os2_typodescent := os2_typodescent f;
     hhea_ascent := hhea_ascent f; hhea_descent := hhea_descent f;
     upos := upos f; comment := comment f; copyright := copyright f |}.

Definition set_os2_windescent (v : Z) (f : Font) : Font :=
  {| fontname := fontname f; familyname := familyname f; fullname := fullname f;
     glyphs := glyphs f; em := em f; ascent := ascent f; descent := descent f;
     os2_winascent := os2_winascent f; os2_windescent := v;
     os2_typoascent := os2_typoascent f; os2_typodescent := os2_typodescent f;
     hhea_ascent := hhea_ascent f; hhea_descent := hhea_descent f;
     upos := upos f; comment := comment f; copyright := copyright f |}.

Definition set_os2_typoascent (v : Z) (f : Font) : Font :=
  {| fontname := fontname f; familyname := familyname f; fullname := fullname f;
     glyphs := glyphs f; em := em f; ascent := ascent f; descent := descent f;
     os2_winascent := os2_winascent f; os2_windescent := os2_windescent f;
     os2_typoascent := v; os2_typodescent := os2_typodescent f;
     hhea_ascent := hhea_ascent f; hhea_descent := hhea_descent f;
     upos := upos f; comment := comment f; copyright := copyright f |}.

Definition set_os2_typodescent (v : Z) (f : Font) : Font :=
  {| fontname := fontname f; familyname := familyname f; fullname := fullname f;
     glyphs := glyphs f; em := em f; ascent := ascent f; descent := descent f;
     os2_winascent := os2_winascent f; os2_windescent := os2_windescent f;
     os2_typoascent := os2_typoascent f; os2_typodescent := v;
     hhea_ascent := hhea_ascent f; hhea_descent := hhea_descent f;
     upos := upos f; comment := comment f; copyright := copyright f |}.

Definition set_hhea_ascent (v : Z) (f : Font) : Font :=
  {| fontname := fontname f; familyname := familyname f; fullname := fullname f;
     glyphs := glyphs f; em := em f; ascent := ascent f; descent := descent f;
     os2_winascent := os2_winascent f; os2_windescent := os2_windescent f;
     os2_typoascent := os2_typoascent f; os2_typodescent := os2_typodescent f;
     hhea_ascent := v; hhea_descent := hhea_descent f;
     upos := upos f; comment := comment f; copyright := copyright f |}.

Definition set_hhea_descent (v : Z) (f : Font) : Font :=
  {| fontname := fontname f; familyname := familyname f; fullname := fullname f;
     glyphs := glyphs f; em := em f; ascent := ascent f; descent := descent f;
     os2_winascent := os2_winascent f; os2_windescent := os2_windescent f;
     os2_typoascent := os2_typoascent f; os2_typodescent := os2_typodescent f;
     hhea_ascent := hhea_ascent f; hhea_descent := v;
     upos := upos f; comment := comment f; copyright := copyright f |}.

Definition set_upos (v : Z) (f : Font) : Font :=
  {| fontname := fontname f; familyname := familyname f; fullname := fullname f;
     glyphs := glyphs f; em := em f; ascent := ascent f; descent := descent f;
     os2_winascent := os2_winascent f; os2_windescent := os2_windescent f;
     os2_typoascent := os2_typoascent f; os2_typodescent := os2_typodescent f;
     hhea_ascent := hhea_ascent f; hhea_descent := hhea_descent f;
     upos := v; comment := comment f; copyright := copyright f |}.

Definition set_comment (v : string) (f : Font) : Font :=
  {| fontname := fontname f; familyname := familyname f; fullname := fullname f;
     glyphs := glyphs f; em := em f; ascent := ascent f; descent := descent f;
     os2_winascent := os2_winascent f; os2_windescent := os2_windescent f;
     os2_typoascent := os2_typoascent f; os2_typodescent := os2_typodescent f;
     hhea_ascent := hhea_ascent f; hhea_descent := hhea_descent f;
     upos := upos f; comment := v; copyright := copyright f |}.

Definition set_copyright (v : string) (f : Font) : Font :=
  {| fontname := fontname f; familyname := familyname f; fullname := fullname f;
     glyphs := glyphs f; em := em f; ascent := ascent f; descent := descent f;
     os2_winascent := os2_winascent f; os2_windescent := os2_windescent f;
     os2_typoascent := os2_typoascent f; os2_typodescent := os2_typodescent f;
     hhea_ascent := hhea_ascent f; hhea_descent := hhea_descent f;
     upos := upos f; comment := comment f; copyright := v |}.

(** [font['x']]: FontForge raises [TypeError] when the glyph is missing. *)
Definition glyph_lookup (f : Font) (glyph_name : string) : result Glyph :=
  match glyphs f glyph_name with
  | Some g => inr g
  | None => inl TypeError
  end.

(** ** Configuration ([ffxcfg.yml]) *)

Inductive YamlValue : Type :=
  | YStr (s : string)
  | YInt (n : Z).

(** the mapping returned by [yaml.load], read by key *)
Definition Config : Type := string -> option YamlValue.

(** [config[key]]: a missing key raises [KeyError] *)
Definition config_get (c : Config) (key : string) : result YamlValue :=
  match c key with
  | Some v => inr v
  | None => inl KeyError
  end.

(** a value used where a [str] is required *)
Definition as_str (v : YamlValue) : result string :=
  match v with
  | YStr s => inr s
  | YInt _ => inl TypeError
  end.

(** a value used as the int operand of [-] *)
Definition as_int (v : YamlValue) : result Z :=
  match v with
  | YInt n => inr n
  | YStr _ => inl TypeError
  end.

(** ** External effects *)

Inductive Effect : Type :=
  | Makedirs (dir : Path)
  | Copy (src : PathLike) (dst : Path)
  | FontSave (f : Font)
  | FontGenerate (dst : Path) (f : Font)
  | Chdir (dir : Path)
  | System (cmd : string).

(** What the outside world answers during one run. *)
Record Env : Type := {
  cwd : list string;
  yaml_load : string -> result Config;
  fontforge_open : Path -> result Font;
  io_ok : Effect -> bool;
  now : string
}.

(** Methods run over the log of the effects performed so far; an exception
    ends the run and leaves the log as it is. *)
Definition M (A : Type) : Type := list Effect -> result A * list Effect.

Definition ret {A : Type} (a : A) : M A := fun log => (inr a, log).

Definition raise {A : Type} (e : PyExc) : M A := fun log => (inl e, log).

Definition bind {A B : Type} (m : M A) (k : A -> M B) : M B :=
  fun log =>
    match m log with
    | (inl e, log') => (inl e, log')
    | (inr a, log') => k a log'
    end.

Definition lift {A : Type} (r : result A) : M A :=
  fun log => (r, log).

(** an external call that raises [OSError] when the outside world refuses it *)
Definition perform (env : Env) (e : Effect) : M unit :=
  fun log => if io_ok env e then (inr tt, log ++ [e]) else raise OSError log.

(** [os.system(cmd)]: the exit status is dropped, nothing is raised *)
Definition os_system (cmd : string) : M unit :=
  fun log => (inr tt, log ++ [System cmd]).

Declare Scope M_scope.
Delimit Scope M_scope with M.
Notation "x <- m ;; k" := (bind m (fun x => k))
  (at level 61, m at next level, right associativity) : M_scope.
Notation "m ;; k" := (bind m (fun _ => k))
  (at level 61, right associativity) : M_scope.

(** ** The class [FontX] *)

Record FontX : Type := {
  config_file : string;
  working_dir : Path;
  config : Config;
  new_name : string;
  target_dir : Path;
  PRESET_HARD_CODED_UNDERLINE_THICKNESS : YamlValue;
  source_file : PathLike;
  target_source_file : Path;
  target_exported_file : Path;
  font : Font;
  old_name : option string
}.

Definition set_font (v : Font) (self : FontX) : FontX :=
  {| config_file := config_file self; working_dir := working_dir self;
     config := config self; new_name := new_name self;
     target_dir := target_dir self;
     PRESET_HARD_CODED_UNDERLINE_THICKNESS := PRESET_HARD_CODED_UNDERLINE_THICKNESS self;
     source_file := source_file self;
     target_source_file := target_source_file self;
     target_exported_file := target_exported_file self;
     font := v; old_name := old_name self |}.

Definition set_old_name (v : string) (self : FontX) : FontX :=
  {| config_file := config_file self; working_dir := working_dir self;
     config := config self; new_name := new_name self;
     target_dir := target_dir self;
     PRESET_HARD_CODED_UNDERLINE_THICKNESS := PRESET_HARD_CODED_UNDERLINE_THICKNESS self;
     source_file := source_file self;
     target_source_file := target_source_file self;
     target_exported_file := target_exported_file self;
     font := font self; old_name := Some v |}.

(** *** [modify] *)

(** [math.ceil(fixed_width * 2 / formal_em * formal_ascent)] *)
Definition new_ascent (fixed_width formal_em formal_ascent : Z) : result Z :=
  (q <- int_truediv (fixed_width * 2) formal_em ;;
   a <- float_of_int formal_ascent ;;
   math_ceil (float_mul q a))%result.

(** the renaming assignments that open [modify] *)
Definition modify_names (self : FontX) : FontX :=
  let self := set_old_name (fontname (font self)) self in
  let self := set_font (set_fontname (new_name self) (font self)) self in
  let self := set_font (set_familyname (new_name self) (font self)) self in
  set_font (set_fullname (new_name self) (font self)) self.

(** the block under [# calculations], up to the underline position *)
Definition modify_metrics (thickness : YamlValue) (f : Font) : result Font :=
  (x <- glyph_lookup f "x" ;;
   let fixed_width := width x in
   let formal_ascent := ascent f in
   let formal_em := em f in
   a <- new_ascent fixed_width formal_em formal_ascent ;;
   let f := set_ascent a f in
   let f := set_descent (fixed_width * 2 - ascent f) f in
   let f := set_os2_winascent (ascent f) f in
   let f := set_os2_windescent (descent f) f in
   let f := set_os2_typoascent (ascent f) f in
   let f := set_os2_typodescent (-1 * descent f) f in
   let f := set_hhea_ascent (ascent f) f in
   let f := set_hhea_descent (-1 * descent f) f in
   t <- as_int thickness ;;
   inr (set_upos (-1 * (descent f - t)) f))%result.

(** the comment and copyright assignments *)
Definition modify_notes (old : string) (f : Font) : Font :=
  let f := set_comment ("This font is the X version(EM W:H=1:2) of " ++ old) f in
  set_copyright (copyright f ++ newline ++ comment f) f.

(** [self.old_name]: reading an attribute that was never assigned raises
    [AttributeError] *)
Definition get_old_name (self : FontX) : result string :=
  match old_name self with
  | Some s => inr s
  | None => inl AttributeError
  end.

Definition modify (env : Env) (self : FontX) : M FontX :=
  (let self := modify_names self in
   f <- lift (modify_metrics (PRESET_HARD_CODED_UNDERLINE_THICKNESS self) (font self)) ;;
   let self := set_font f self in
   old <- lift (get_old_name self) ;;
   let self := set_font (modify_notes old (font self)) self in
   perform env (FontSave (font self)) ;;
   perform env (FontGenerate (abspath (cwd env) (target_exported_file self)) (font self)) ;;
   ret self)%M.

(** *** [install] *)

Definition install_commands (env : Env) (self : FontX) : list string :=
  [ "mv ~/.local/share/fonts/" ++ new_name self ++ ".* ~/trash";
    "cp " ++ new_name self ++ ".*tf ~/.local/share/fonts/";
    "fc-cache -fv";
    "echo '" ++ new_name self ++ " Generated via FontX, " ++ now env ++ "' >> FontX.log" ]%string.

Fixpoint run_commands (cmds : list string) : M unit :=
  match cmds with
  | [] => ret tt
  | cmd :: rest => (os_system cmd ;; run_commands rest)%M
  end.

Definition install (env : Env) (self : FontX) : M unit :=
  (perform env (Chdir (parent (target_source_file self))) ;;
   run_commands (install_commands env self))%M.

(** *** [__init__] *)

(** [self.working_dir / _src if not os.path.isabs(_src) else _src] *)
Definition resolve_source (working_dir : Path) (_src : string) : PathLike :=
  if negb (isabs _src) then PLPath (join working_dir _src) else PLStr _src.

Definition init (env : Env) (config_file : string) : M FontX :=
  (let working_dir := parent (parse config_file) in
   config <- lift (yaml_load env config_file) ;;
   new_name <- lift (v <- config_get config "NEW_FONT_NAME" ;; as_str v)%result ;;
   let target_dir := join working_dir new_name in
   perform env (Makedirs target_dir) ;;
   thickness <- lift (config_get config "PRESET_HARD_CODED_UNDERLINE_THICKNESS") ;;
   _src <- lift (v <- config_get config "SOURCE_FILE" ;; as_str v)%result ;;
   let source_file := resolve_source working_dir _src in
   let target_source_file := join target_dir (new_name ++ ".sfd") in
   let target_exported_file := join target_dir (new_name ++ ".ttf") in
   perform env (Copy source_file target_source_file) ;;
   font <- lift (fontforge_open env (abspath (cwd env) target_source_file)) ;;
   let self :=
     {| config_file := config_file; working_dir := working_dir;
        config := config; new_name := new_name; target_dir := target_dir;
        PRESET_HARD_CODED_UNDERLINE_THICKNESS := thickness;
        source_file := source_file;
        target_source_file := target_source_file;
        target_exported_file := target_exported_file;
        font := font; old_name := None |} in
   self <- modify env self ;;
   install env self ;;
   ret self)%M.

(** [x = FontX()] *)
Definition main (env : Env) : M FontX := init env "./ffxcfg.yml".

(** ** Definitions used by the proofs *)

(** Where the exact value [N / D] lies between two consecutive integers. *)
Definition loc_of (N D : Z) : location :=
  if N mod D =? 0 then loc_Exact else loc_Inexact (2 * (N mod D) ?= D).

(** A shift record that stands for the rational [N / D]. *)
Definition Rep (N D : Z) (mrs : shr_record) : Prop :=
  shr_m mrs = N / D /\ loc_of_shr_record mrs = loc_of N D.

(** [N / D] rounded to the nearest integer, ties to even *)
Definition rne (N D : Z) : Z := round_nearest_even (N / D) (loc_of N D).

(** the rational value [m * 2 ^ e] *)
Definition F2Q (m e : Z) : Q := (inject_Z m * 2 ^ e)%Q.

(** the unit roundoff of binary64 *)
Definition u53 : Q := 1 # (2 ^ 53).

(** the range of a C [int], in which FontForge keeps its metrics *)
Definition c_int (z : Z) : Prop := - 2 ^ 31 <= z < 2 ^ 31.

(** a string with a slash in it *)
Fixpoint has_slash (s : string) : bool :=
  match s with
  | EmptyString => false
  | String a s' => (Ascii.eqb a slash || has_slash s')%bool
  end.

(** a string that is one path component: no slash, not empty, not ["."] *)
Definition plain_name (s : string) : bool :=
  (negb (has_slash s) && is_component s)%bool.

(** the path that a [str] or [Path] argument denotes ([Path(arg)]) *)
Definition path_of (p : PathLike) : Path :=
  match p with
  | PLStr s => parse s
  | PLPath q => q
  end.

(** a list of components without [".."] *)
Definition no_dotdot (l : list string) : Prop :=
  Forall (fun c => String.eqb c ".." = false) l.

(** ** Sample inputs *)

(** a glyph table with the single glyph [x] *)
Definition x_glyphs (fw : Z) : string -> option Glyph :=
  fun g => if String.eqb g "x" then Some {| width := fw |} else None.

Definition sample_font (nm : string) (em_ asc fw : Z) (cr : string) : Font :=
  {| fontname := nm; familyname := nm; fullname := nm;
     glyphs := x_glyphs fw; em := em_; ascent := asc; descent := em_ - asc;
     os2_winascent := asc; os2_windescent := em_ - asc;
     os2_typoascent := asc; os2_typodescent := asc - em_;
     hhea_ascent := asc; hhea_descent := asc - em_;
     upos := -100; comment := EmptyString; copyright := cr |}.

Definition sample_config (src new : string) (thickness : Z) : Config :=
  fun key =>
    if String.eqb key "SOURCE_FILE" then Some (YStr src)
    else if String.eqb key "PRESET_HARD_CODED_UNDERLINE_THICKNESS"
         then Some (YInt thickness)
    else if String.eqb key "NEW_FONT_NAME" then Some (YStr new)
    else None.

(** an outside world in which every call succeeds *)
Definition sample_env (cfg : Config) (f : Font) : Env :=
  {| cwd := ["home"; "user"; "fonts"]%string;
     yaml_load := fun _ => inr cfg;
     fontforge_open := fun _ => inr f;
     io_ok := fun _ => true;
     now := "2021-03-01 12:00:00" |}.

(** the object on which [modify] is called for the font [f] *)
Definition sample_self (new : string) (thickness : YamlValue) (f : Font) : FontX :=
  {| config_file := "./ffxcfg.yml";
     working_dir := parent (parse "./ffxcfg.yml");
     config := fun _ => None;
     new_name := new;
     target_dir := join (parent (parse "./ffxcfg.yml")) new;
     PRESET_HARD_CODED_UNDERLINE_THICKNESS := thickness;
     source_file := PLPath (parse "a.sfd");
     target_source_file := parse (new ++ "/" ++ new ++ ".sfd");
     target_exported_file := parse (new ++ "/" ++ new ++ ".ttf");
     font := f; old_name := None |}.

(** the font of the documented scenario: em 1000, ascent 800, width 600 *)
Definition font_1000_800_600 : Font := sample_font "a" 1000 800 600 "(c) a".

(** a font of em 1000 and ascent 800 whose [x] is 550 wide *)
Definition font_1000_800_550 : Font := sample_font "a" 1000 800 550 "(c) a".

(** a font whose em size is zero *)
Definition font_zero_em : Font := sample_font "a" 0 800 600 "(c) a".

(** the font of the renaming scenario *)
Definition font_Foo : Font := sample_font "Foo" 1000 800 600 "(c) Foo".

(** a font that has no glyph [x] *)
Definition font_no_x : Font :=
  {| fontname := "a"; familyname := "a"; fullname := "a";
     glyphs := fun _ => None; em := 1000; ascent := 800; descent := 200;
     os2_winascent := 800; os2_windescent := 200;
     os2_typoascent := 800; os2_typodescent := -200;
     hhea_ascent := 800; hhea_descent := -200;
     upos := -100; comment := EmptyString; copyright := "(c) a" |}.

(** a configuration with the single key NEW_FONT_NAME *)
Definition only_new_font_name : Config :=
  fun key => if String.eqb key "NEW_FONT_NAME" then Some (YStr "aX") else None.

(** an outside world in which FontForge cannot open the copy *)
Definition env_open_fails : Env :=
  {| cwd := ["home"; "user"; "fonts"]%string;
     yaml_load := fun _ => inr (sample_config "a.sfd" "aX" 91);
     fontforge_open := fun _ => inl OSError;
     io_ok := fun _ => true;
     now := "2021-03-01 12:00:00" |}.

(** a font that already has the 1:2 ratio: em 1200 for a width of 600 *)
Definition font_x_version : Font := sample_font "aX" 1200 960 600 "(c) a".

(** a font with the usual TrueType em size of 2048 *)
Definition font_2048 : Font := sample_font "a" 2048 1638 1233 "(c) a".

(** a font whose em size is negative *)
Definition font_negative_em : Font := sample_font "a" (-1000) 800 600 "(c) a".

(** a font whose glyph [x] has no width *)
Definition font_zero_width : Font := sample_font "a" 1000 800 0 "(c) a".

(** * Binary64 rounding

    The functions of [SpecFloat] are stated over the kernel's integer
    operations; [zdef] rewrites them into those of [ZArith]. *)

Ltac zdef :=
  change IntDef.Z.add with Z.add in *; change IntDef.Z.sub with Z.sub in *;
  change IntDef.Z.mul with Z.mul in *; change IntDef.Z.opp with Z.opp in *;
  change IntDef.Z.max with Z.max in *; change IntDef.Z.min with Z.min in *;
  change IntDef.Z.eqb with Z.eqb in *; change IntDef.Z.leb with Z.leb in *;
  change IntDef.Z.ltb with Z.ltb in *; change IntDef.Z.compare with Z.compare in *;
  change IntDef.Z.even with Z.even in *; change IntDef.Z.div_eucl with Z.div_eucl in *;
  change IntDef.Z.shiftl with Z.shiftl in *; change PosDef.Pos.mul with Pos.mul in *;
  change @PosDef.Pos.iter with @Pos.iter in *.

(** ** Digits *)

Lemma digits2_pos_size p : digits2_pos p = Pos.size p.
Proof. induction p; simpl; congruence. Qed.

Lemma Zdigits2_log2 m : 0 < m -> Zdigits2 m = Z.log2 m + 1.
Proof.
  destruct m as [|p|p]; try lia. intros _.
  unfold Zdigits2. rewrite digits2_pos_size.
  destruct p; simpl; lia.
Qed.

Lemma Zdigits2_bounds m :
  0 < m -> 2 ^ (Zdigits2 m - 1) <= m < 2 ^ Zdigits2 m.
Proof.
  intros Hm. rewrite (Zdigits2_log2 m Hm).
  replace (Z.log2 m + 1 - 1) with (Z.log2 m) by lia.
  pose proof (Z.log2_spec m Hm). unfold Z.succ in *. lia.
Qed.

Lemma Zdigits2_unique m n :
  2 ^ (n - 1) <= m < 2 ^ n -> 0 < n -> Zdigits2 m = n.
Proof.
  intros H Hn.
  assert (0 < m) by (pose proof (Z.pow_pos_nonneg 2 (n - 1)); lia).
  rewrite Zdigits2_log2 by assumption.
  rewrite (Z.log2_unique m (n - 1)); try lia.
  replace (Z.succ (n - 1)) with n by lia. lia.
Qed.

Lemma new_location_spec d r :
  0 < d -> 0 <= r < d ->
  new_location d r = if r =? 0 then loc_Exact else loc_Inexact (2 * r ?= d).
Proof.
  intros Hd Hr. unfold new_location, new_location_even, new_location_odd. zdef.
  destruct (Z.even d) eqn:Ev; cbv beta; [reflexivity|].
  destruct (r =? 0) eqn:E; [reflexivity|].
  f_equal.
  assert (Hodd : Z.odd d = true) by (rewrite <- Z.negb_even, Ev; reflexivity).
  apply Z.odd_spec in Hodd. destruct Hodd as [c Hc].
  destruct (Z.compare_spec (2 * r + 1) d), (Z.compare_spec (2 * r) d); try reflexivity; lia.
Qed.

Lemma loc_of_new_location N D :
  0 < D -> new_location D (N mod D) = loc_of N D.
Proof.
  intros HD. unfold loc_of. apply new_location_spec; [assumption|].
  apply Z.mod_pos_bound; assumption.
Qed.

Lemma shr_record_of_loc_Rep N D :
  Rep N D (shr_record_of_loc (N / D) (loc_of N D)).
Proof.
  unfold Rep. destruct (loc_of N D) as [|[]]; split; reflexivity.
Qed.

Lemma div_mod_double N D :
  0 < D -> N / (2 * D) = (N / D) / 2 /\ N mod (2 * D) = N mod D + D * ((N / D) mod 2).
Proof.
  intros HD. split.
  - rewrite (Z.mul_comm 2 D), Z.div_div by lia. reflexivity.
  - rewrite (Z.mul_comm 2 D). apply Z.rem_mul_r; lia.
Qed.

Lemma shr_1_spec m r s :
  0 <= m -> shr_1 (Build_shr_record m r s) = Build_shr_record (m / 2) (Z.odd m) (orb r s).
Proof.
  intros Hm. rewrite <- Z.div2_div.
  destruct m as [|[p|p|]|p]; try lia; reflexivity.
Qed.

Lemma loc_flags N D r s :
  0 < D ->
  loc_of_shr_record (Build_shr_record (N / D) r s) = loc_of N D ->
  orb r s = negb (N mod D =? 0).
Proof.
  intros HD. unfold loc_of. cbn [loc_of_shr_record].
  destruct (N mod D =? 0), r, s; simpl; congruence.
Qed.

(** One shift to the right halves the denominator's unit: the record then
    stands for [N / (2 * D)]. *)
Lemma shr_1_Rep N D mrs :
  0 <= N -> 0 < D -> Rep N D mrs -> Rep N (2 * D) (shr_1 mrs).
Proof.
  intros HN HD [Hm Hl].
  destruct (div_mod_double N D HD) as [Hq Hr].
  pose proof (Z.mod_pos_bound N D HD) as Hb.
  assert (Hq0 : 0 <= N / D) by (apply Z.div_pos; lia).
  destruct mrs as [m r s]. cbn [shr_m] in Hm. subst m.
  apply loc_flags in Hl; [|assumption].
  rewrite shr_1_spec by assumption.
  unfold Rep, loc_of. cbn [shr_m loc_of_shr_record]. rewrite Hq, Hr, Hl.
  split; [reflexivity|].
  rewrite Zmod_odd.
  destruct (Z.odd (N / D)); destruct (Z.eqb_spec (N mod D) 0) as [E|E]; cbn [negb].
  - rewrite E. replace (0 + D * 1) with D by lia.
    destruct (Z.eqb_spec D 0); [lia|]. f_equal.
    symmetry. apply Z.compare_eq_iff. reflexivity.
  - destruct (Z.eqb_spec (N mod D + D * 1) 0); [lia|]. f_equal.
    symmetry. apply Z.compare_gt_iff. lia.
  - rewrite E. replace (0 + D * 0) with 0 by lia. reflexivity.
  - replace (N mod D + D * 0) with (N mod D) by lia.
    destruct (Z.eqb_spec (N mod D) 0); [lia|]. f_equal.
    symmetry. apply Z.compare_lt_iff. lia.
Qed.

Lemma pow2_xO p : 2 ^ Z.pos p~0 = 2 ^ Z.pos p * 2 ^ Z.pos p.
Proof. rewrite Pos2Z.inj_xO, <- Z.pow_add_r by lia. f_equal. lia. Qed.

Lemma pow2_xI p : 2 ^ Z.pos p~1 = 2 * (2 ^ Z.pos p * 2 ^ Z.pos p).
Proof.
  rewrite Pos2Z.inj_xI.
  replace (2 * Z.pos p + 1) with (Z.pos p + Z.pos p + 1) by lia.
  rewrite !Z.pow_add_r by lia. change (2 ^ 1) with 2. ring.
Qed.

Lemma iter_pos_Rep p : forall N D mrs,
  0 <= N -> 0 < D -> Rep N D mrs ->
  Rep N (D * 2 ^ Z.pos p) (iter_pos shr_1 p mrs).
Proof.
  induction p as [p IH|p IH|]; intros N D mrs HN HD H; cbn [iter_pos];
    try pose proof (Z.pow_pos_nonneg 2 (Z.pos p) ltac:(lia) ltac:(lia)) as Hp.
  - replace (D * 2 ^ Z.pos p~1) with (2 * D * 2 ^ Z.pos p * 2 ^ Z.pos p)
      by (rewrite pow2_xI; lia).
    apply IH; [assumption|nia|].
    apply IH; [assumption|lia|]. apply shr_1_Rep; assumption.
  - replace (D * 2 ^ Z.pos p~0) with (D * 2 ^ Z.pos p * 2 ^ Z.pos p)
      by (rewrite pow2_xO; lia).
    apply IH; [assumption|nia|].
    apply IH; assumption.
  - change (2 ^ 1) with 2. rewrite Z.mul_comm. apply shr_1_Rep; assumption.
Qed.

Lemma shr_Rep N D mrs e n :
  0 <= N -> 0 < D -> Rep N D mrs ->
  Rep N (D * 2 ^ Z.max 0 n) (fst (shr mrs e n)) /\ snd (shr mrs e n) = e + Z.max 0 n.
Proof.
  intros HN HD H. destruct n as [|p|p]; cbn [shr fst snd].
  - rewrite Z.max_id. change (2 ^ 0) with 1. rewrite Z.mul_1_r, Z.add_0_r. auto.
  - zdef. rewrite Z.max_r by lia. split; [|reflexivity].
    apply iter_pos_Rep; assumption.
  - rewrite Z.max_l by lia. change (2 ^ 0) with 1. rewrite Z.mul_1_r, Z.add_0_r. auto.
Qed.

(** Rounding to nearest moves the quotient by at most half a unit. *)
Lemma rne_spec N D :
  0 <= N -> 0 < D ->
  N / D <= rne N D <= N / D + 1 /\ 2 * Z.abs (rne N D * D - N) <= D.
Proof.
  intros HN HD. unfold rne, loc_of, round_nearest_even. zdef.
  pose proof (Z.div_mod N D ltac:(lia)) as Hdm.
  pose proof (Z.mod_pos_bound N D HD) as Hb.
  destruct (Z.eqb_spec (N mod D) 0) as [E|E]; [nia|].
  destruct (Z.compare_spec (2 * (N mod D)) D); [destruct (Z.even (N / D))|..]; nia.
Qed.

Lemma fexp_b64 x : fexp prec emax x = Z.max (x - 53) (-1074).
Proof. reflexivity. Qed.

Lemma shr_fexp_Rep N D e :
  0 <= N -> 0 < D ->
  let n := fexp prec emax (Zdigits2 (N / D) + e) - e in
  Rep N (D * 2 ^ Z.max 0 n) (fst (shr_fexp prec emax (N / D) e (loc_of N D)))
  /\ snd (shr_fexp prec emax (N / D) e (loc_of N D)) = e + Z.max 0 n.
Proof.
  intros HN HD n. unfold shr_fexp. zdef.
  apply shr_Rep; [assumption..|]. apply shr_record_of_loc_Rep.
Qed.

Lemma loc_of_1 m : loc_of m 1 = loc_Exact.
Proof. unfold loc_of. rewrite Z.mod_1_r. reflexivity. Qed.

(** Rounding in the normal range.  The rational [N / D * 2 ^ e], given by
    its integer part and the location of the rest, with at least 53 digits in
    the integer part, is rounded to a finite float with a 53-bit mantissa,
    off by at most half a unit in the last place, hence by a relative error
    of at most [2 ^ -53]. *)
Lemma binary_round_aux_normal s N D e :
  0 <= N -> 0 < D ->
  let k := Zdigits2 (N / D) - 53 in
  0 <= k -> -1074 <= e + k -> e + k + 1 <= 971 ->
  exists m e',
    binary_round_aux prec emax s (N / D) e (loc_of N D) = S754_finite s m e'
    /\ e + k <= e' <= e + k + 1
    /\ 2 ^ 52 <= Z.pos m < 2 ^ 53
    /\ 2 * Z.abs (Z.pos m * 2 ^ (e' - e) * D - N) <= D * 2 ^ k
    /\ 2 ^ 53 * Z.abs (Z.pos m * 2 ^ (e' - e) * D - N) <= N.
Proof.
  intros HN HD k Hk Hlo Hhi.
  assert (HM : 0 < N / D).
  { pose proof (Z.div_pos N D HN HD).
    destruct (Z.eq_dec (N / D) 0) as [E|E]; [|lia].
    unfold k in Hk. rewrite E in Hk. simpl in Hk. lia. }
  pose proof (Zdigits2_bounds (N / D) HM) as Hd.
  replace (Zdigits2 (N / D)) with (53 + k) in Hd by (unfold k; lia).
  replace (53 + k - 1) with (52 + k) in Hd by lia.
  rewrite !Z.pow_add_r in Hd by lia.
  pose proof (Z.pow_pos_nonneg 2 k ltac:(lia) Hk) as Hpk.
  set (D1 := D * 2 ^ k).
  assert (HD1 : 0 < D1) by (unfold D1; nia).
  assert (Hq : N / D1 = N / D / 2 ^ k) by (unfold D1; rewrite Z.div_div by lia; reflexivity).
  assert (Hq1 : 2 ^ 52 <= N / D1 < 2 ^ 53).
  { rewrite Hq. split.
    - apply Z.div_le_lower_bound; lia.
    - apply Z.div_lt_upper_bound; lia. }
  pose proof (Z.div_mod N D ltac:(lia)) as HdmD.
  pose proof (Z.mod_pos_bound N D HD) as HbD.
  destruct (rne_spec N D1 HN HD1) as [Hr1 Hr2].
  unfold binary_round_aux.
  destruct (shr_fexp_Rep N D e HN HD) as [HR He]. cbv zeta in HR, He.
  rewrite fexp_b64 in HR, He.
  replace (Z.max (Zdigits2 (N / D) + e - 53) (-1074) - e) with k in HR, He by (unfold k; lia).
  rewrite Z.max_r in HR, He by lia. fold D1 in HR.
  destruct (shr_fexp prec emax (N / D) e (loc_of N D)) as [mrs' e1]. cbn [fst snd] in HR, He.
  destruct HR as [Hm1 Hl1]. rewrite Hm1, Hl1. fold (rne N D1).
  set (m1 := rne N D1) in *.
  assert (Hm1pos : 0 <= m1) by lia.
  pose proof (shr_fexp_Rep m1 1 e1 Hm1pos ltac:(lia)) as H2. cbv zeta in H2.
  rewrite Z.div_1_r, loc_of_1, fexp_b64 in H2.
  destruct (Z.eq_dec m1 (2 ^ 53)) as [Hc|Hc].
  - (* rounding carried into a 54th bit *)
    assert (Hdig : Zdigits2 m1 = 54) by (apply Zdigits2_unique; [rewrite Hc; simpl; lia|lia]).
    rewrite Hdig in H2.
    replace (Z.max (54 + e1 - 53) (-1074) - e1) with 1 in H2 by lia.
    destruct (shr_fexp prec emax m1 e1 loc_Exact) as [mrs'' e2]. cbn [fst snd] in H2.
    destruct H2 as [[Hm2 _] He2]. rewrite Hm2.
    replace (m1 / (1 * 2 ^ Z.max 0 1)) with (2 ^ 52) by (rewrite Hc; reflexivity).
    change (2 ^ 52) with (Z.pos (2 ^ 52)%positive).
    cbv iota beta. zdef.
    replace (e2 <=? emax - prec) with true
      by (symmetry; apply Z.leb_le; unfold emax, prec; simpl in He2; lia).
    exists (2 ^ 52)%positive, e2. simpl in He2.
    split; [reflexivity|]. split; [lia|]. split; [simpl; lia|].
    replace (e2 - e) with (k + 1) by lia.
    rewrite Z.pow_add_r by lia. change (2 ^ 1) with 2.
    change (Z.pos (2 ^ 52)) with (2 ^ 52).
    replace (2 ^ 52 * (2 ^ k * 2) * D) with (m1 * D1)
      by (rewrite Hc; unfold D1; change (2 ^ 53) with (2 ^ 52 * 2); ring).
    unfold D1 in *. split; nia.
  - assert (Hdig : Zdigits2 m1 = 53) by (apply Zdigits2_unique; lia).
    rewrite Hdig in H2.
    replace (Z.max (53 + e1 - 53) (-1074) - e1) with 0 in H2 by lia.
    destruct (shr_fexp prec emax m1 e1 loc_Exact) as [mrs'' e2]. cbn [fst snd] in H2.
    destruct H2 as [[Hm2 _] He2]. rewrite Hm2.
    simpl in He2. change (1 * 2 ^ Z.max 0 0) with 1. rewrite Z.div_1_r.
    destruct m1 as [|p|p] eqn:Ep; try lia.
    cbv iota beta. zdef.
    replace (e2 <=? emax - prec) with true
      by (symmetry; apply Z.leb_le; unfold emax, prec; lia).
    exists p, e2.
    split; [reflexivity|]. split; [lia|]. split; [lia|].
    replace (e2 - e) with k by lia.
    replace (Z.pos p * 2 ^ k * D) with (Z.pos p * D1) by (unfold D1; ring).
    unfold D1 in *. split; nia.
Qed.

(** ** Values in [Q] *)

Lemma pow2Q_pos e : (0 < 2 ^ e)%Q.
Proof. apply Qpower_0_lt. reflexivity. Qed.

Lemma F2Q_shift m j e : 0 <= j -> (F2Q (m * 2 ^ j) e == F2Q m (e + j))%Q.
Proof.
  intros Hj. unfold F2Q.
  rewrite inject_Z_mult, (Zpower_Qpower 2 j Hj), Qpower_plus by discriminate.
  change (inject_Z 2) with 2%Q. ring.
Qed.

(** The relative error bound, read in [Q]. *)
Lemma round_accuracy_Q m e' e N D :
  0 < D -> e <= e' -> 2 ^ 53 * Z.abs (m * 2 ^ (e' - e) * D - N) <= N ->
  ((1 - u53) * (inject_Z N * 2 ^ e) <= F2Q m e' * inject_Z D <= (1 + u53) * (inject_Z N * 2 ^ e))%Q.
Proof.
  intros HD He Hacc.
  assert (Hs : (F2Q m e' == inject_Z (m * 2 ^ (e' - e)) * 2 ^ e)%Q).
  { replace e' with (e + (e' - e)) at 1 by lia. rewrite <- F2Q_shift by lia. reflexivity. }
  rewrite Hs. set (t := m * 2 ^ (e' - e)) in *.
  assert (H1 : 2 ^ 53 * (t * D) <= (2 ^ 53 + 1) * N) by lia.
  assert (H2 : (2 ^ 53 - 1) * N <= 2 ^ 53 * (t * D)) by lia.
  rewrite Zle_Qle in H1, H2. rewrite !inject_Z_mult in H1, H2.
  pose proof (pow2Q_pos e) as HP.
  set (P := (2 ^ e)%Q) in *. set (T := inject_Z t) in *.
  set (N' := inject_Z N) in *. set (D' := inject_Z D) in *.
  change (inject_Z (2 ^ 53 + 1)) with (9007199254740993 # 1)%Q in H1.
  change (inject_Z (2 ^ 53 - 1)) with (9007199254740991 # 1)%Q in H2.
  change (inject_Z (2 ^ 53)) with (9007199254740992 # 1)%Q in H1, H2.
  unfold u53. change (2 ^ 53)%positive with 9007199254740992%positive.
  split; nra.
Qed.

(** ** The float operations of [new_ascent] on operands in range *)

Lemma Pos_iter_xO m d : Z.pos (Pos.iter xO m d) = Z.pos m * 2 ^ Z.pos d.
Proof.
  revert m. induction d as [d IH|d IH|]; intros m; cbn [Pos.iter].
  - rewrite Pos2Z.inj_xO, !IH, pow2_xI. ring.
  - rewrite !IH, pow2_xO. ring.
  - rewrite Pos2Z.inj_xO. change (2 ^ 1) with 2. ring.
Qed.

Lemma shl_align_53 p :
  Z.pos p < 2 ^ 53 ->
  let d := Zdigits2 (Z.pos p) in
  exists mz,
    shl_align p 0 (fexp prec emax (d + 0)) = (mz, d - 53)
    /\ Z.pos mz = Z.pos p * 2 ^ (53 - d)
    /\ 2 ^ 52 <= Z.pos mz < 2 ^ 53.
Proof.
  intros Hp d.
  pose proof (Zdigits2_bounds (Z.pos p) ltac:(lia)) as Hd. fold d in Hd.
  assert (Hd1 : 1 <= d) by (unfold d; simpl; lia).
  assert (Hd53 : d <= 53).
  { destruct (Z.le_gt_cases d 53) as [|Hgt]; [assumption|].
    assert (2 ^ 53 <= 2 ^ (d - 1)) by (apply Z.pow_le_mono_r; lia). lia. }
  rewrite fexp_b64. unfold shl_align. zdef.
  replace (Z.max (d + 0 - 53) (-1074) - 0) with (d - 53) by lia.
  replace (Z.max (d + 0 - 53) (-1074)) with (d - 53) by lia.
  assert (Hsc : 2 ^ (d - 1) * 2 ^ (53 - d) = 2 ^ 52 /\ 2 ^ d * 2 ^ (53 - d) = 2 ^ 53).
  { rewrite <- !Z.pow_add_r by lia. split; f_equal; lia. }
  pose proof (Z.pow_pos_nonneg 2 (53 - d) ltac:(lia) ltac:(lia)) as Hpp.
  destruct (d - 53) as [|q|q] eqn:E; try lia.
  - exists p. replace (53 - d) with 0 in * by lia. change (2 ^ 0) with 1 in *.
    split; [reflexivity|]. split; [lia|]. lia.
  - exists (Pos.iter xO p q). rewrite Pos_iter_xO.
    replace (53 - d) with (Z.pos q) in * by lia.
    split; [reflexivity|]. split; [reflexivity|]. nia.
Qed.

Lemma binary_round_exact s p :
  Z.pos p < 2 ^ 53 ->
  exists m e,
    binary_round prec emax s p 0 = S754_finite s m e
    /\ 2 ^ 52 <= Z.pos m < 2 ^ 53
    /\ -52 <= e <= 0
    /\ Z.pos m = Z.pos p * 2 ^ (- e).
Proof.
  intros Hp. unfold binary_round. zdef.
  change (Z.pos (digits2_pos p)) with (Zdigits2 (Z.pos p)).
  destruct (shl_align_53 p Hp) as (mz & Hsh & Hmz & Hrange). cbv zeta in Hsh.
  rewrite Hsh.
  set (d := Zdigits2 (Z.pos p)) in *.
  assert (Hd1 : 1 <= d) by (unfold d; simpl; lia).
  assert (Hd53 : d <= 53).
  { destruct (Z.le_gt_cases d 53) as [|Hgt]; [assumption|].
    pose proof (Zdigits2_bounds (Z.pos p) ltac:(lia)) as Hd. fold d in Hd.
    assert (2 ^ 53 <= 2 ^ (d - 1)) by (apply Z.pow_le_mono_r; lia). lia. }
  assert (Hdig : Zdigits2 (Z.pos mz / 1) = 53)
    by (rewrite Z.div_1_r; apply Zdigits2_unique; simpl; lia).
  pose proof (binary_round_aux_normal s (Z.pos mz) 1 (d - 53) ltac:(lia) ltac:(lia)) as H.
  cbv zeta in H. rewrite Hdig, Z.div_1_r, loc_of_1 in H.
  destruct H as (m & e & Hr & He & Hm & Hhalf & _); try lia.
  exists m, e. rewrite Hr.
  assert (He' : e = d - 53).
  { destruct (Z.eq_dec e (d - 53)) as [|Hne]; [assumption|exfalso].
    replace (e - (d - 53)) with 1 in Hhalf by lia.
    change (2 ^ 1) with 2 in Hhalf. change (2 ^ (53 - 53)) with 1 in Hhalf. lia. }
  subst e. replace (d - 53 - (d - 53)) with 0 in Hhalf by lia.
  change (2 ^ 0) with 1 in Hhalf. change (2 ^ (53 - 53)) with 1 in Hhalf.
  split; [reflexivity|]. split; [assumption|]. split; [lia|].
  replace (- (d - 53)) with (53 - d) by lia. lia.
Qed.

(** A non-zero int below [2 ^ 53] in absolute value converts exactly. *)
Lemma float_of_int_normal c :
  c <> 0 -> Z.abs c < 2 ^ 53 ->
  exists m e,
    float_of_int c = inr (S754_finite (c <? 0) m e)
    /\ 2 ^ 52 <= Z.pos m < 2 ^ 53
    /\ -52 <= e <= 0
    /\ Z.pos m = Z.abs c * 2 ^ (- e).
Proof.
  intros Hc Hb. unfold float_of_int, binary_normalize.
  destruct c as [|p|p]; [congruence|..]; cbn [Z.abs Z.ltb Z.compare] in *.
  - destruct (binary_round_exact false p Hb) as (m & e & Hr & H).
    exists m, e. rewrite Hr. split; [reflexivity|exact H].
  - destruct (binary_round_exact true p Hb) as (m & e & Hr & H).
    exists m, e. rewrite Hr. split; [reflexivity|exact H].
Qed.

Lemma Zdigits2_range x lo hi :
  0 <= lo -> 2 ^ lo <= x < 2 ^ hi -> lo + 1 <= Zdigits2 x <= hi.
Proof.
  intros Hlo [H1 H2].
  assert (Hx : 0 < x) by (pose proof (Z.pow_pos_nonneg 2 lo); lia).
  pose proof (Zdigits2_bounds x Hx) as Hd.
  assert (Hd0 : 0 < Zdigits2 x) by (rewrite Zdigits2_log2 by assumption; pose proof (Z.log2_nonneg x); lia).
  split.
  - destruct (Z.le_gt_cases (lo + 1) (Zdigits2 x)) as [|Hgt]; [assumption|exfalso].
    assert (2 ^ Zdigits2 x <= 2 ^ lo) by (apply Z.pow_le_mono_r; lia). lia.
  - destruct (Z.le_gt_cases (Zdigits2 x) hi) as [|Hgt]; [assumption|exfalso].
    assert (2 ^ hi <= 2 ^ (Zdigits2 x - 1)) by (apply Z.pow_le_mono_r; lia). lia.
Qed.

Lemma div_eucl_div_mod a b : Z.div_eucl a b = (a / b, a mod b).
Proof. unfold Z.div, Z.modulo. destruct (Z.div_eucl a b); reflexivity. Qed.

Lemma pow2Q_cancel s : (0 <= s)%Z -> (inject_Z (2 ^ s) * 2 ^ (- s) == 1)%Q.
Proof.
  intros Hs. rewrite (Zpower_Qpower 2 s Hs). change (inject_Z 2) with 2%Q.
  rewrite <- Qpower_plus by discriminate.
  replace (s + - s)%Z with 0%Z by lia. reflexivity.
Qed.

(** True division of two non-zero ints below [2 ^ 53]: a normal float
    within a relative error of [2 ^ -53] of the exact quotient. *)
Lemma int_truediv_normal a b :
  a <> 0 -> b <> 0 -> Z.abs a < 2 ^ 53 -> Z.abs b < 2 ^ 53 ->
  exists m e,
    int_truediv a b = inr (S754_finite (xorb (a <? 0) (b <? 0)) m e)
    /\ 2 ^ 52 <= Z.pos m < 2 ^ 53
    /\ -105 <= e <= 1
    /\ ((1 - u53) * inject_Z (Z.abs a) <= F2Q (Z.pos m) e * inject_Z (Z.abs b)
        <= (1 + u53) * inject_Z (Z.abs a))%Q.
Proof.
  intros Ha Hb HA HB. unfold int_truediv.
  destruct (Z.eqb_spec b 0) as [|_]; [congruence|].
  destruct (Z.eqb_spec a 0) as [|_]; [congruence|].
  set (A := Z.abs a) in *. set (B := Z.abs b) in *.
  assert (HA0 : 0 < A) by (unfold A; lia). assert (HB0 : 0 < B) by (unfold B; lia).
  pose proof (Zdigits2_bounds A HA0) as HdA. pose proof (Zdigits2_bounds B HB0) as HdB.
  pose proof (Zdigits2_range A 0 53 ltac:(lia) ltac:(change (2 ^ 0) with 1; lia)) as HrA.
  pose proof (Zdigits2_range B 0 53 ltac:(lia) ltac:(change (2 ^ 0) with 1; lia)) as HrB.
  unfold SFdiv_core_binary. zdef. rewrite fexp_b64.
  set (dA := Zdigits2 A) in *. set (dB := Zdigits2 B) in *.
  replace (Z.min (Z.max (dA + 0 - (dB + 0) - 53) (-1074)) (0 - 0)) with (dA - dB - 53) by lia.
  replace (0 - 0 - (dA - dB - 53)) with (53 + dB - dA) by lia.
  set (s := 53 + dB - dA).
  assert (Hs : 0 < s) by (unfold s; lia).
  replace (match s with 0 => A | Z.pos _ => Z.shiftl A s | Z.neg _ => 0 end) with (A * 2 ^ s)
    by (destruct s; try lia; rewrite Z.shiftl_mul_pow2 by lia; reflexivity).
  rewrite div_eucl_div_mod, loc_of_new_location by assumption.
  set (N := A * 2 ^ s).
  assert (HN : 2 ^ 52 * 2 ^ dB <= N < 2 ^ 54 * 2 ^ (dB - 1)).
  { unfold N.
    replace (2 ^ 52 * 2 ^ dB) with (2 ^ (dA - 1) * 2 ^ s)
      by (rewrite <- !Z.pow_add_r by lia; f_equal; unfold s; lia).
    replace (2 ^ 54 * 2 ^ (dB - 1)) with (2 ^ dA * 2 ^ s)
      by (rewrite <- !Z.pow_add_r by lia; f_equal; unfold s; lia).
    pose proof (Z.pow_pos_nonneg 2 s ltac:(lia) ltac:(lia)). nia. }
  assert (Hq : 2 ^ 52 <= N / B < 2 ^ 54).
  { split.
    - apply Z.div_le_lower_bound; [assumption|]. nia.
    - apply Z.div_lt_upper_bound; [assumption|]. nia. }
  pose proof (Zdigits2_range (N / B) 52 54 ltac:(lia) Hq) as Hdq.
  assert (HN0 : 0 <= N) by (pose proof (Z.pow_pos_nonneg 2 dB); nia).
  destruct (binary_round_aux_normal (xorb (a <? 0) (b <? 0)) N B (dA - dB - 53) HN0 HB0)
    as (m & e & Hr & He & Hm & _ & Hacc); try lia.
  exists m, e. rewrite Hr.
  split; [reflexivity|]. split; [assumption|]. split; [lia|].
  pose proof (round_accuracy_Q (Z.pos m) e (dA - dB - 53) N B HB0 ltac:(lia) Hacc) as HQ.
  assert (HNQ : (inject_Z N * 2 ^ (dA - dB - 53) == inject_Z A)%Q).
  { unfold N. rewrite inject_Z_mult, <- Qmult_assoc.
    replace (dA - dB - 53) with (- s) by (unfold s; lia).
    rewrite pow2Q_cancel by lia. ring. }
  rewrite HNQ in HQ. exact HQ.
Qed.

(** The product of two normal floats, far from overflow and underflow: a
    normal float within a relative error of [2 ^ -53] of the exact product. *)
Lemma float_mul_normal s1 m1 e1 s2 m2 e2 :
  2 ^ 52 <= Z.pos m1 < 2 ^ 53 -> 2 ^ 52 <= Z.pos m2 < 2 ^ 53 ->
  -1126 <= e1 + e2 <= 917 ->
  exists m e,
    float_mul (S754_finite s1 m1 e1) (S754_finite s2 m2 e2)
      = S754_finite (xorb s1 s2) m e
    /\ 2 ^ 52 <= Z.pos m < 2 ^ 53
    /\ e1 + e2 + 52 <= e <= e1 + e2 + 54
    /\ ((1 - u53) * (F2Q (Z.pos m1) e1 * F2Q (Z.pos m2) e2) <= F2Q (Z.pos m) e
        <= (1 + u53) * (F2Q (Z.pos m1) e1 * F2Q (Z.pos m2) e2))%Q.
Proof.
  intros H1 H2 He12. unfold float_mul, SFmul. zdef.
  set (N := Z.pos (m1 * m2)).
  assert (HNeq : N = Z.pos m1 * Z.pos m2) by reflexivity.
  assert (HN : 2 ^ 104 <= N < 2 ^ 106).
  { change (2 ^ 104) with (2 ^ 52 * 2 ^ 52). change (2 ^ 106) with (2 ^ 53 * 2 ^ 53). nia. }
  pose proof (Zdigits2_range N 104 106 ltac:(lia) HN) as Hd.
  pose proof (binary_round_aux_normal (xorb s1 s2) N 1 (e1 + e2) ltac:(lia) ltac:(lia)) as H.
  cbv zeta in H. rewrite Z.div_1_r, loc_of_1 in H.
  destruct H as (m & e & Hr & He & Hm & _ & Hacc); try lia.
  exists m, e. rewrite Hr.
  split; [reflexivity|]. split; [assumption|]. split; [lia|].
  pose proof (round_accuracy_Q (Z.pos m) e (e1 + e2) N 1 ltac:(lia) ltac:(lia) Hacc) as HQ.
  assert (HNQ : (inject_Z N * 2 ^ (e1 + e2) == F2Q (Z.pos m1) e1 * F2Q (Z.pos m2) e2)%Q).
  { unfold F2Q. rewrite HNeq, inject_Z_mult, Qpower_plus by discriminate. ring. }
  rewrite HNQ in HQ. change (inject_Z 1) with 1%Q in HQ.
  rewrite Qmult_1_r in HQ. exact HQ.
Qed.

(** On ints that convert exactly, true division is the division of the
    converted floats: two sample quotients. *)
Example int_truediv_is_float_division :
  int_truediv 1100 1000
  = inr (SFdiv prec emax (binary_normalize prec emax 1100 0 false)
                         (binary_normalize prec emax 1000 0 false))
  /\ int_truediv (-1200) 1000
    = inr (SFdiv prec emax (binary_normalize prec emax (-1200) 0 false)
                           (binary_normalize prec emax 1000 0 false)).
Proof. split; vm_compute; reflexivity. Qed.

(** ** [math.ceil] and the new ascent *)

Lemma F2Q_nonneg_exp z e : 0 <= e -> (F2Q z e == inject_Z (z * 2 ^ e))%Q.
Proof.
  intros He. unfold F2Q. rewrite inject_Z_mult, (Zpower_Qpower 2 e He).
  reflexivity.
Qed.

Lemma F2Q_neg_exp z e : e < 0 -> (F2Q z e == inject_Z z / inject_Z (2 ^ (- e)))%Q.
Proof.
  intros He. unfold F2Q, Qdiv.
  rewrite (Zpower_Qpower 2 (- e)) by lia. change (inject_Z 2) with 2%Q.
  rewrite <- Qpower_opp. replace (- - e)%Z with e by lia. reflexivity.
Qed.

Lemma ceil_dyadic_Qceiling z e : ceil_dyadic z e = Qceiling (F2Q z e).
Proof.
  unfold ceil_dyadic. destruct (Z.leb_spec 0 e) as [He|He].
  - rewrite (Qceiling_comp _ _ (F2Q_nonneg_exp z e He)), Qceiling_Z. reflexivity.
  - rewrite (Qceiling_comp _ _ (F2Q_neg_exp z e He)).
    unfold Qceiling. f_equal.
    rewrite Zdiv_Qdiv. apply Qfloor_comp.
    rewrite inject_Z_opp. unfold Qdiv. ring.
Qed.

Lemma F2Q_pos m e : (0 < F2Q (Z.pos m) e)%Q.
Proof.
  unfold F2Q. apply Qmult_lt_0_compat; [reflexivity|apply pow2Q_pos].
Qed.

Lemma Qceiling_pos x : (0 < x)%Q -> 1 <= Qceiling x.
Proof.
  intros Hx. pose proof (Qle_ceiling x) as H.
  assert (H0 : (0 < inject_Z (Qceiling x))%Q) by (eapply Qlt_le_trans; eassumption).
  change 0%Q with (inject_Z 0) in H0. rewrite <- Zlt_Qlt in H0. lia.
Qed.

Lemma Qceiling_le_Z x n : (x <= inject_Z n)%Q -> Qceiling x <= n.
Proof.
  intros H. apply Qceiling_resp_le in H. rewrite Qceiling_Z in H. exact H.
Qed.

Lemma float_of_int_zero : float_of_int 0 = inr (S754_zero false).
Proof. reflexivity. Qed.

(** On C ints the computation of the new ascent raises only for a zero em. *)
Lemma new_ascent_total fw em_ asc :
  c_int fw -> c_int em_ -> c_int asc -> em_ <> 0 ->
  exists a, new_ascent fw em_ asc = inr a.
Proof.
  unfold c_int. intros Hfw Hem Hasc Hnz. unfold new_ascent.
  change (- 2 ^ 31) with (-2147483648) in *. change (2 ^ 31) with 2147483648 in *.
  assert (P53 : 2 ^ 53 = 9007199254740992) by reflexivity.
  destruct (Z.eq_dec fw 0) as [Hz|Hfnz].
  - subst fw. unfold int_truediv.
    destruct (Z.eqb_spec em_ 0) as [|_]; [congruence|]. cbn [Z.mul Z.eqb rbind].
    destruct (Z.eq_dec asc 0) as [Hz|Hanz].
    + subst asc. rewrite float_of_int_zero. cbn. eauto.
    + destruct (float_of_int_normal asc Hanz ltac:(lia)) as (m & e & Hr & _).
      rewrite Hr. cbn. eauto.
  - destruct (int_truediv_normal (fw * 2) em_ ltac:(lia) Hnz ltac:(lia) ltac:(lia))
      as (mq & eq & Hq & Hmq & Heq & _).
    rewrite Hq. cbn [rbind].
    destruct (Z.eq_dec asc 0) as [Hz|Hanz].
    + subst asc. rewrite float_of_int_zero. cbn. eauto.
    + destruct (float_of_int_normal asc Hanz ltac:(lia)) as (mc & ec & Hc & Hmc & Hec & _).
      rewrite Hc. cbn [rbind].
      destruct (float_mul_normal (xorb (fw * 2 <? 0) (em_ <? 0)) mq eq (asc <? 0) mc ec
                  Hmq Hmc ltac:(lia)) as (m & e & Hr & _).
      rewrite Hr. cbn. eauto.
Qed.

(** The value of an int below [2 ^ 53] converted to a float. *)
Lemma float_of_int_value c m e :
  0 < c -> Z.pos m = Z.abs c * 2 ^ (- e) -> -52 <= e <= 0 ->
  (F2Q (Z.pos m) e == inject_Z c)%Q.
Proof.
  intros Hc Hval He. replace (Z.abs c) with c in Hval by lia.
  destruct (Z.eq_dec e 0) as [E0|E0].
  - subst e. rewrite F2Q_nonneg_exp by lia. change (2 ^ 0) with 1.
    change (2 ^ (- 0)) with 1 in Hval. rewrite Hval, !Z.mul_1_r. reflexivity.
  - rewrite F2Q_neg_exp by lia. rewrite Hval, inject_Z_mult.
    assert (Hnz : ~ (inject_Z (2 ^ (- e)) == 0)%Q).
    { change 0%Q with (inject_Z 0). rewrite inject_Z_injective.
      pose proof (Z.pow_pos_nonneg 2 (- e) ltac:(lia) ltac:(lia)). lia. }
    field. exact Hnz.
Qed.

Section PositiveCInts.

Variables fw em_ asc : Z.
Hypothesis Hfw : 0 < fw < 2 ^ 31.
Hypothesis Hem : 0 < em_ < 2 ^ 31.

(** For positive C ints the new ascent is the ceiling of a rational [v]
    that is the exact ratio [fw * 2 * asc / em] up to two roundings. *)
Lemma new_ascent_accuracy :
  0 < asc < 2 ^ 31 ->
  exists v : Q,
    new_ascent fw em_ asc = inr (Qceiling v)
    /\ (0 < v)%Q
    /\ ((1 - u53) * (1 - u53) * (inject_Z (fw * 2) * inject_Z asc)
        <= v * inject_Z em_
        <= (1 + u53) * (1 + u53) * (inject_Z (fw * 2) * inject_Z asc))%Q.
Proof.
  intros Hasc. unfold new_ascent.
  pose proof Hfw as Hfw'. pose proof Hem as Hem'.
  change (2 ^ 31) with 2147483648 in *.
  assert (P53 : 2 ^ 53 = 9007199254740992) by reflexivity.
  destruct (int_truediv_normal (fw * 2) em_ ltac:(lia) ltac:(lia) ltac:(lia) ltac:(lia))
    as (mq & eq & Hq & Hmq & Heq & HaccQ).
  rewrite Hq. cbn [rbind].
  destruct (float_of_int_normal asc ltac:(lia) ltac:(lia))
    as (mc & ec & Hc & Hmc & Hec & Hval).
  rewrite Hc. cbn [rbind].
  destruct (float_mul_normal (xorb (fw * 2 <? 0) (em_ <? 0)) mq eq (asc <? 0) mc ec
              Hmq Hmc ltac:(lia)) as (m & e & Hr & Hm & He & HaccP).
  rewrite Hr.
  replace (fw * 2 <? 0) with false by (symmetry; apply Z.ltb_ge; lia).
  replace (em_ <? 0) with false by (symmetry; apply Z.ltb_ge; lia).
  replace (asc <? 0) with false by (symmetry; apply Z.ltb_ge; lia).
  cbn [xorb math_ceil cond_Zopp].
  exists (F2Q (Z.pos m) e). rewrite ceil_dyadic_Qceiling.
  split; [reflexivity|]. split; [apply F2Q_pos|].
  rewrite (float_of_int_value asc mc ec ltac:(lia) Hval Hec) in HaccP.
  replace (Z.abs (fw * 2)) with (fw * 2) in HaccQ by lia.
  replace (Z.abs em_) with em_ in HaccQ by lia.
  pose proof (F2Q_pos mq eq) as Hvq.
  set (vq := F2Q (Z.pos mq) eq) in *. set (vp := F2Q (Z.pos m) e) in *.
  assert (HB : (0 < inject_Z em_)%Q)
    by (change 0%Q with (inject_Z 0); rewrite <- Zlt_Qlt; lia).
  assert (HC : (0 < inject_Z asc)%Q)
    by (change 0%Q with (inject_Z 0); rewrite <- Zlt_Qlt; lia).
  set (A := inject_Z (fw * 2)) in *. set (B := inject_Z em_) in *.
  set (C := inject_Z asc) in *.
  destruct HaccQ as [HQ1 HQ2]. destruct HaccP as [HP1 HP2].
  unfold u53 in *. change (2 ^ 53)%positive with 9007199254740992%positive in *.
  split; nra.
Qed.

(** For a positive em, an old ascent below it and a positive width, all C
    ints, the new ascent lies between 1 and twice the width. *)
Lemma new_ascent_bounds :
  0 < asc < em_ ->
  exists a, new_ascent fw em_ asc = inr a /\ 1 <= a <= fw * 2.
Proof.
  intros Hasc. pose proof Hfw as Hfw'. pose proof Hem as Hem'.
  destruct (new_ascent_accuracy ltac:(lia)) as (v & Hv & Hpos & _ & Hup).
  exists (Qceiling v). split; [exact Hv|].
  split; [apply Qceiling_pos; exact Hpos|].
  apply Qceiling_le_Z.
  change (2 ^ 31) with 2147483648 in *.
  assert (HA : (0 < inject_Z (fw * 2))%Q)
    by (change 0%Q with (inject_Z 0); rewrite <- Zlt_Qlt; lia).
  assert (HB1 : (1 <= inject_Z em_)%Q)
    by (change 1%Q with (inject_Z 1); rewrite <- Zle_Qle; lia).
  assert (HB2 : (inject_Z em_ <= 2147483648 # 1)%Q)
    by (change (2147483648 # 1)%Q with (inject_Z 2147483648); rewrite <- Zle_Qle; lia).
  assert (HCB : (inject_Z asc <= inject_Z em_ - 1)%Q).
  { assert (Hz : asc + 1 <= em_) by lia. rewrite Zle_Qle, inject_Z_plus in Hz.
    change (inject_Z 1) with 1%Q in Hz. lra. }
  set (A := inject_Z (fw * 2)) in *. set (B := inject_Z em_) in *.
  set (C := inject_Z asc) in *.
  unfold u53 in *. change (2 ^ 53)%positive with 9007199254740992%positive in *.
  assert (S1 : (A * C <= A * B - A)%Q) by nra.
  assert (S2 : (A * B <= A * (2147483648 # 1))%Q) by nra.
  assert (S3 : (v * B <= A * B)%Q) by lra.
  nra.
Qed.

(** With the old ascent above the em size the new ascent exceeds twice the
    width. *)
Lemma new_ascent_above :
  em_ < asc < 2 ^ 31 ->
  exists a, new_ascent fw em_ asc = inr a /\ fw * 2 < a.
Proof.
  intros Hasc. pose proof Hfw as Hfw'. pose proof Hem as Hem'.
  destruct (new_ascent_accuracy ltac:(lia)) as (v & Hv & Hpos & Hlo & _).
  exists (Qceiling v). split; [exact Hv|].
  pose proof (Qle_ceiling v) as Hceil.
  rewrite Zlt_Qlt.
  change (2 ^ 31) with 2147483648 in *.
  assert (HA : (0 < inject_Z (fw * 2))%Q)
    by (change 0%Q with (inject_Z 0); rewrite <- Zlt_Qlt; lia).
  assert (HB1 : (1 <= inject_Z em_)%Q)
    by (change 1%Q with (inject_Z 1); rewrite <- Zle_Qle; lia).
  assert (HB2 : (inject_Z em_ <= 2147483648 # 1)%Q)
    by (change (2147483648 # 1)%Q with (inject_Z 2147483648); rewrite <- Zle_Qle; lia).
  assert (HCB : (inject_Z em_ + 1 <= inject_Z asc)%Q).
  { assert (Hz : em_ + 1 <= asc) by lia. rewrite Zle_Qle, inject_Z_plus in Hz.
    change (inject_Z 1) with 1%Q in Hz. exact Hz. }
  set (A := inject_Z (fw * 2)) in *. set (B := inject_Z em_) in *.
  set (C := inject_Z asc) in *. set (K := inject_Z (Qceiling v)) in *.
  unfold u53 in *. change (2 ^ 53)%positive with 9007199254740992%positive in *.
  assert (S1 : (A * B + A <= A * C)%Q) by nra.
  assert (S2 : (A * B <= A * (2147483648 # 1))%Q) by nra.
  assert (S3 : (A * B < v * B)%Q) by lra.
  nra.
Qed.

End PositiveCInts.

(** * The metric computation of [modify] *)

(** What a successful run of the metric block has computed. *)
Lemma modify_metrics_inv th f f' :
  modify_metrics th f = inr f' ->
  exists x a t,
    glyphs f "x" = Some x
    /\ new_ascent (width x) (em f) (ascent f) = inr a
    /\ th = YInt t
    /\ ascent f' = a
    /\ descent f' = width x * 2 - a
    /\ os2_winascent f' = ascent f'
    /\ os2_windescent f' = descent f'
    /\ os2_typoascent f' = ascent f'
    /\ os2_typodescent f' = - descent f'
    /\ hhea_ascent f' = ascent f'
    /\ hhea_descent f' = - descent f'
    /\ upos f' = - (descent f' - t)
    /\ fontname f' = fontname f
    /\ comment f' = comment f
    /\ copyright f' = copyright f.
Proof.
  unfold modify_metrics, glyph_lookup.
  destruct (glyphs f "x") as [x|]; cbn [rbind]; [|discriminate].
  destruct (new_ascent (width x) (em f) (ascent f)) as [e|a] eqn:Ha; cbn [rbind];
    [discriminate|].
  destruct th as [s|t]; cbn [as_int rbind]; [discriminate|].
  intros H. injection H as <-. exists x, a, t. cbn.
  repeat split; try reflexivity; try assumption; lia.
Qed.

(** The metric block succeeds as soon as the new ascent is computed. *)
Lemma modify_metrics_ok t f x a :
  glyphs f "x" = Some x ->
  new_ascent (width x) (em f) (ascent f) = inr a ->
  exists f', modify_metrics (YInt t) f = inr f'.
Proof.
  intros Hx Ha. unfold modify_metrics, glyph_lookup.
  rewrite Hx. cbn [rbind]. rewrite Ha. cbn [rbind as_int]. eauto.
Qed.

(** The metric block raises the exception of the new ascent, if any. *)
Lemma modify_metrics_raises th f x e :
  glyphs f "x" = Some x ->
  new_ascent (width x) (em f) (ascent f) = inl e ->
  modify_metrics th f = inl e.
Proof.
  intros Hx Ha. unfold modify_metrics, glyph_lookup.
  rewrite Hx. cbn [rbind]. rewrite Ha. reflexivity.
Qed.

Lemma new_ascent_zero_em fw asc : new_ascent fw 0 asc = inl ZeroDivisionError.
Proof. reflexivity. Qed.

(** The documented scenario: em 1000, ascent 800, width 600, thickness 91. *)
Example scenario_960_240 :
  exists f',
    modify_metrics (YInt 91) font_1000_800_600 = inr f'
    /\ ascent f' = 960 /\ descent f' = 240 /\ upos f' = -149
    /\ os2_winascent f' = 960 /\ os2_windescent f' = 240
    /\ os2_typoascent f' = 960 /\ os2_typodescent f' = -240
    /\ hhea_ascent f' = 960 /\ hhea_descent f' = -240.
Proof. eexists. split; [vm_compute; reflexivity|]. cbn. repeat split. Qed.

(** ** C1 *)

(** [exact_ceil n d] is the least integer not below [n / d]. *)
Lemma exact_ceil_spec n d :
  0 < d -> (exact_ceil n d - 1) * d < n <= exact_ceil n d * d.
Proof.
  intros Hd. unfold exact_ceil.
  pose proof (Z.div_mod (- n) d ltac:(lia)) as Hdm.
  pose proof (Z.mod_pos_bound (- n) d Hd) as Hb. nia.
Qed.

(** C1, as stated, fails: for em 1000, old ascent 800 and width 550 the
    exact ceiling of [550 * 2 * 800 / 1000] is 880, and the code, which
    works in binary64, yields 881. *)
Lemma new_ascent_is_not_exact_ceiling :
  ~ (forall fw em_ asc,
       0 < em_ -> 0 < asc < em_ -> 0 < fw ->
       new_ascent fw em_ asc = inr (exact_ceil (fw * 2 * asc) em_)).
Proof.
  intros H.
  specialize (H 550 1000 800 ltac:(lia) ltac:(lia) ltac:(lia)).
  vm_compute in H. discriminate H.
Qed.

(** the two values at that input, and the descent that follows *)
Example overshoot_1000_800_550 :
  new_ascent 550 1000 800 = inr 881
  /\ exact_ceil (550 * 2 * 800) 1000 = 880
  /\ exists f',
       modify_metrics (YInt 91) font_1000_800_550 = inr f'
       /\ ascent f' = 881 /\ descent f' = 219.
Proof.
  split; [vm_compute; reflexivity|]. split; [reflexivity|].
  eexists. split; [vm_compute; reflexivity|]. split; reflexivity.
Qed.

(** C1 (amended): for every em > 0, old ascent > 0 and width > 0 (C ints)
    the new ascent is the ceiling of the binary64 product of the binary64
    quotient [fixed_width * 2 / em] by the old ascent: a value [v] within
    two roundings, each of relative error [2 ^ -53], of the exact ratio
    [fixedWidth * 2 * oldAscent / em]; in particular for em 1000, old
    ascent 800 and width 600 the new ascent is 960, the exact ceiling. *)
Theorem new_ascent_is_ceiling_of_rounded_ratio (fw em_ asc : Z) :
  0 < fw < 2 ^ 31 -> 0 < em_ < 2 ^ 31 -> 0 < asc < 2 ^ 31 ->
  (exists v : Q,
     new_ascent fw em_ asc = inr (Qceiling v)
     /\ ((1 - u53) * (1 - u53) * (inject_Z (fw * 2 * asc) / inject_Z em_) <= v
         <= (1 + u53) * (1 + u53) * (inject_Z (fw * 2 * asc) / inject_Z em_))%Q)
  /\ new_ascent 600 1000 800 = inr 960
  /\ exact_ceil (600 * 2 * 800) 1000 = 960.
Proof.
  intros Hfw Hem Hasc.
  split; [|split; [vm_compute; reflexivity|reflexivity]].
  destruct (new_ascent_accuracy fw em_ asc Hfw Hem Hasc) as (v & Hv & _ & Hlo & Hhi).
  exists v. split; [exact Hv|].
  assert (HB : (0 < inject_Z em_)%Q)
    by (change 0%Q with (inject_Z 0); rewrite <- Zlt_Qlt; lia).
  rewrite inject_Z_mult.
  set (N := (inject_Z (fw * 2) * inject_Z asc)%Q) in *.
  set (B := inject_Z em_) in *.
  assert (E : forall k : Q, (k * (N / B) * B == k * N)%Q).
  { intros k. field. intros Hz. rewrite Hz in HB. discriminate HB. }
  split.
  - apply (Qmult_le_r _ _ B HB). rewrite E. exact Hlo.
  - apply (Qmult_le_r _ _ B HB). rewrite E. exact Hhi.
Qed.

Lemma new_ascent_is_ceiling_of_rounded_ratio_witness :
  (exists v : Q,
     new_ascent 550 1000 800 = inr (Qceiling v)
     /\ ((1 - u53) * (1 - u53) * (inject_Z (550 * 2 * 800) / inject_Z 1000) <= v
         <= (1 + u53) * (1 + u53) * (inject_Z (550 * 2 * 800) / inject_Z 1000))%Q)
  /\ new_ascent 600 1000 800 = inr 960
  /\ exact_ceil (600 * 2 * 800) 1000 = 960.
Proof.
  apply (new_ascent_is_ceiling_of_rounded_ratio 550 1000 800); cbn; lia.
Defined.

(** ** C2 *)

(** C2: for every em > 0, old ascent with 0 < oldAscent < em and width > 0,
    the new ascent and the new descent of every result add up to exactly
    twice the width, however the ascent was rounded; and for C ints the
    metric block does produce a result. *)
Theorem ascent_plus_descent_is_twice_width (t : Z) (f : Font) (x : Glyph) :
  glyphs f "x" = Some x ->
  0 < em f ->
  0 < ascent f < em f ->
  0 < width x ->
  (forall f', modify_metrics (YInt t) f = inr f' ->
              ascent f' + descent f' = 2 * width x)
  /\ (em f < 2 ^ 31 -> width x < 2 ^ 31 ->
      exists f', modify_metrics (YInt t) f = inr f').
Proof.
  intros Hx Hem Hasc Hfw. split.
  - intros f' Hf'.
    destruct (modify_metrics_inv _ _ _ Hf')
      as (x' & a' & t' & Hx' & _ & _ & Hasc' & Hdesc' & _).
    rewrite Hx in Hx'. injection Hx' as <-. lia.
  - intros Hem' Hfw'.
    destruct (new_ascent_bounds (width x) (em f) (ascent f)
                ltac:(lia) ltac:(lia) Hasc) as (a & Ha & _).
    exact (modify_metrics_ok t f x a Hx Ha).
Qed.

Lemma ascent_plus_descent_is_twice_width_witness :
  glyphs font_1000_800_600 "x" = Some {| width := 600 |}
  /\ (forall f', modify_metrics (YInt 91) font_1000_800_600 = inr f' ->
                 ascent f' + descent f' = 2 * 600)
  /\ exists f', modify_metrics (YInt 91) font_1000_800_600 = inr f'.
Proof.
  split; [reflexivity|].
  destruct (ascent_plus_descent_is_twice_width 91 font_1000_800_600 {| width := 600 |})
    as [Hsum Hex]; [reflexivity|cbn; lia..|].
  split; [exact Hsum|]. apply Hex; cbn; lia.
Defined.

(** ** C3 *)

(** C3: for every computed metric set, the OS/2 "win" and "typo" fields and
    the horizontal-header fields are copies of the new ascent and descent,
    sign-flipped for the typo and hhea descents. *)
Theorem os2_and_hhea_fields_follow (th : YamlValue) (f f' : Font) :
  modify_metrics th f = inr f' ->
  os2_winascent f' = ascent f'
  /\ os2_windescent f' = descent f'
  /\ os2_typoascent f' = ascent f'
  /\ os2_typodescent f' = - descent f'
  /\ hhea_ascent f' = ascent f'
  /\ hhea_descent f' = - descent f'.
Proof.
  intros H.
  destruct (modify_metrics_inv _ _ _ H)
    as (x & a & t & _ & _ & _ & _ & _ & H1 & H2 & H3 & H4 & H5 & H6 & _).
  repeat split; assumption.
Qed.

Lemma os2_and_hhea_fields_follow_witness :
  exists f',
    modify_metrics (YInt 91) font_1000_800_600 = inr f'
    /\ os2_winascent f' = ascent f'
    /\ os2_windescent f' = descent f'
    /\ os2_typoascent f' = ascent f'
    /\ os2_typodescent f' = - descent f'
    /\ hhea_ascent f' = ascent f'
    /\ hhea_descent f' = - descent f'.
Proof.
  eexists. split; [vm_compute; reflexivity|].
  eapply (os2_and_hhea_fields_follow (YInt 91) font_1000_800_600).
  vm_compute. reflexivity.
Defined.

(** ** C4 *)

(** C4: for every computed descent and every thickness preset the underline
    position is set to [-(newDescent - thickness)]. *)
Theorem underline_position (t : Z) (f f' : Font) :
  modify_metrics (YInt t) f = inr f' ->
  upos f' = - (descent f' - t).
Proof.
  intros H.
  destruct (modify_metrics_inv _ _ _ H)
    as (x & a & t' & _ & _ & Ht & _ & _ & _ & _ & _ & _ & _ & _ & Hu & _).
  injection Ht as <-. exact Hu.
Qed.

(** with a new descent of 240 and a thickness of 91 the position is -149 *)
Lemma underline_position_witness :
  exists f',
    modify_metrics (YInt 91) font_1000_800_600 = inr f'
    /\ descent f' = 240
    /\ upos f' = - (240 - 91).
Proof.
  eexists. split; [vm_compute; reflexivity|]. split; [reflexivity|].
  eapply (underline_position 91 font_1000_800_600).
  vm_compute. reflexivity.
Defined.

(** ** C10 *)

(** C10: for C ints with em > 0 and width > 0, an old ascent below the em
    size gives a new ascent of at least 1 and a nonnegative new descent;
    nothing checks the old ascent, and one above the em size gives a
    negative new descent, so that the sign-flipped fields come out
    positive. *)
Theorem new_ascent_and_descent_signs (t : Z) (f : Font) (x : Glyph) :
  glyphs f "x" = Some x ->
  0 < em f < 2 ^ 31 ->
  0 < width x < 2 ^ 31 ->
  0 < ascent f < 2 ^ 31 ->
  exists f',
    modify_metrics (YInt t) f = inr f'
    /\ (ascent f < em f -> 0 <= descent f' /\ 1 <= ascent f')
    /\ (em f < ascent f ->
        descent f' < 0 /\ 0 < os2_typodescent f' /\ 0 < hhea_descent f').
Proof.
  intros Hx Hem Hfw Hasc.
  assert (Hc : c_int (width x) /\ c_int (em f) /\ c_int (ascent f)) by (unfold c_int; lia).
  destruct Hc as (C1 & C2 & C3).
  destruct (new_ascent_total (width x) (em f) (ascent f) C1 C2 C3 ltac:(lia)) as (a & Ha).
  destruct (modify_metrics_ok t f x a Hx Ha) as (f' & Hf').
  exists f'. split; [exact Hf'|].
  destruct (modify_metrics_inv _ _ _ Hf')
    as (x' & a' & t' & Hx' & Ha' & _ & Hasc' & Hdesc' & _ & _ & _ & Htd & _ & Hhd & _).
  rewrite Hx in Hx'. injection Hx' as <-.
  rewrite Ha in Ha'. injection Ha' as <-.
  split.
  - intros Hlt.
    destruct (new_ascent_bounds (width x) (em f) (ascent f) Hfw Hem ltac:(lia))
      as (b & Hb & Hrange).
    rewrite Ha in Hb. injection Hb as <-. lia.
  - intros Hgt.
    destruct (new_ascent_above (width x) (em f) (ascent f) Hfw Hem ltac:(lia))
      as (b & Hb & Hrange).
    rewrite Ha in Hb. injection Hb as <-. lia.
Qed.

Lemma new_ascent_and_descent_signs_witness :
  glyphs font_1000_800_600 "x" = Some {| width := 600 |}
  /\ exists f',
       modify_metrics (YInt 91) font_1000_800_600 = inr f'
       /\ (ascent font_1000_800_600 < em font_1000_800_600 ->
           0 <= descent f' /\ 1 <= ascent f')
       /\ (em font_1000_800_600 < ascent font_1000_800_600 ->
           descent f' < 0 /\ 0 < os2_typodescent f' /\ 0 < hhea_descent f').
Proof.
  split; [reflexivity|].
  apply (new_ascent_and_descent_signs 91 font_1000_800_600 {| width := 600 |});
    cbn; [reflexivity|lia..].
Defined.

(** an old ascent of 1200 over an em of 1000: the new descent is -240 *)
Example descent_negative_1200 :
  exists f',
    modify_metrics (YInt 91) (sample_font "a" 1000 1200 600 "(c) a") = inr f'
    /\ ascent f' = 1440 /\ descent f' = -240
    /\ os2_typodescent f' = 240 /\ hhea_descent f' = 240.
Proof. eexists. split; [vm_compute; reflexivity|]. cbn. repeat split. Qed.

(** * The method [modify] *)

Lemma modify_names_font self :
  glyphs (font (modify_names self)) = glyphs (font self)
  /\ em (font (modify_names self)) = em (font self)
  /\ ascent (font (modify_names self)) = ascent (font self)
  /\ copyright (font (modify_names self)) = copyright (font self)
  /\ fontname (font (modify_names self)) = new_name self
  /\ familyname (font (modify_names self)) = new_name self
  /\ fullname (font (modify_names self)) = new_name self
  /\ old_name (modify_names self) = Some (fontname (font self))
  /\ PRESET_HARD_CODED_UNDERLINE_THICKNESS (modify_names self)
     = PRESET_HARD_CODED_UNDERLINE_THICKNESS self.
Proof. repeat split. Qed.

(** What a successful call of [modify] has done. *)
Lemma modify_inv env self log self' log' :
  modify env self log = (inr self', log') ->
  exists f1,
    modify_metrics (PRESET_HARD_CODED_UNDERLINE_THICKNESS self)
      (font (modify_names self)) = inr f1
    /\ font self' = modify_notes (fontname (font self)) f1
    /\ old_name self' = Some (fontname (font self))
    /\ new_name self' = new_name self
    /\ working_dir self' = working_dir self
    /\ target_source_file self' = target_source_file self
    /\ target_exported_file self' = target_exported_file self
    /\ source_file self' = source_file self
    /\ target_dir self' = target_dir self
    /\ log' = log ++ [FontSave (font self');
                      FontGenerate (abspath (cwd env) (target_exported_file self))
                        (font self')].
Proof.
  unfold modify, bind, lift, perform, ret.
  destruct (modify_metrics _ (font (modify_names self))) as [e|f1] eqn:Hm;
    [discriminate|].
  cbn [get_old_name old_name set_font modify_names set_old_name].
  destruct (io_ok env (FontSave _)); [|discriminate].
  destruct (io_ok env (FontGenerate _ _)); [|discriminate].
  intros H. injection H as <- <-. exists f1.
  rewrite <- app_assoc. repeat split.
Qed.

(** [modify] succeeds when its metric block does and the font can be saved
    and generated. *)
Lemma modify_ok env self log f1 :
  modify_metrics (PRESET_HARD_CODED_UNDERLINE_THICKNESS self)
    (font (modify_names self)) = inr f1 ->
  (forall e, io_ok env e = true) ->
  exists self' log', modify env self log = (inr self', log').
Proof.
  intros Hm Hio. unfold modify, bind, lift, perform, ret.
  change (PRESET_HARD_CODED_UNDERLINE_THICKNESS (modify_names self))
    with (PRESET_HARD_CODED_UNDERLINE_THICKNESS self).
  rewrite Hm. cbn [get_old_name old_name set_font modify_names set_old_name].
  rewrite !Hio. eauto.
Qed.

(** The comment and copyright assignments leave the metrics alone: the
    font that [modify] returns carries the metrics of its metric block. *)
Lemma modify_keeps_metrics env self log self' log' :
  modify env self log = (inr self', log') ->
  exists f1,
    modify_metrics (PRESET_HARD_CODED_UNDERLINE_THICKNESS self)
      (font (modify_names self)) = inr f1
    /\ ascent (font self') = ascent f1
    /\ descent (font self') = descent f1
    /\ os2_winascent (font self') = os2_winascent f1
    /\ os2_windescent (font self') = os2_windescent f1
    /\ os2_typoascent (font self') = os2_typoascent f1
    /\ os2_typodescent (font self') = os2_typodescent f1
    /\ hhea_ascent (font self') = hhea_ascent f1
    /\ hhea_descent (font self') = hhea_descent f1
    /\ upos (font self') = upos f1.
Proof.
  intros H. destruct (modify_inv _ _ _ _ _ H) as (f1 & Hm & Hf & _).
  exists f1. split; [exact Hm|]. rewrite Hf. repeat split.
Qed.

(** ** C5 *)

(** C5, as stated, fails: for a font whose em size is zero the error raised
    is not the invalid-metric error of the specification. *)
Lemma zero_em_error_is_not_invalid_metric :
  ~ (forall env self log x,
       glyphs (font self) "x" = Some x ->
       em (font self) = 0 ->
       exists log', modify env self log = (inl InvalidMetricError, log')).
Proof.
  intros H.
  destruct (H (sample_env (sample_config "a.sfd" "aX" 91) font_zero_em)
              (sample_self "aX" (YInt 91) font_zero_em) [] {| width := 600 |}
              eq_refl eq_refl) as (log' & E).
  vm_compute in E. discriminate E.
Qed.

(** C5 (amended): with an em size of zero [modify] stops with Python's
    [ZeroDivisionError], raised by the division itself, before anything is
    saved or generated; on C ints with a non-zero em, and an outside world
    that refuses nothing, [modify] raises nothing. *)
Theorem zero_em_is_rejected (env : Env) (self : FontX) (log : list Effect)
    (x : Glyph) (t : Z) :
  glyphs (font self) "x" = Some x ->
  PRESET_HARD_CODED_UNDERLINE_THICKNESS self = YInt t ->
  c_int (width x) -> c_int (em (font self)) -> c_int (ascent (font self)) ->
  (em (font self) = 0 -> modify env self log = (inl ZeroDivisionError, log))
  /\ (em (font self) <> 0 -> (forall e, io_ok env e = true) ->
      exists self' log', modify env self log = (inr self', log')).
Proof.
  intros Hx Ht Hw Hem Hasc.
  destruct (modify_names_font self) as (Hg & He & Ha & _ & _ & _ & _ & _ & Hp).
  split.
  - intros Hz. unfold modify, bind, lift.
    rewrite (modify_metrics_raises _ (font (modify_names self)) x ZeroDivisionError);
      [reflexivity|rewrite Hg; exact Hx|].
    rewrite He, Hz. apply new_ascent_zero_em.
  - intros Hnz Hio.
    destruct (new_ascent_total (width x) (em (font self)) (ascent (font self))
                Hw Hem Hasc Hnz) as (a & Hna).
    destruct (modify_metrics_ok t (font (modify_names self)) x a) as (f1 & Hf1);
      [rewrite Hg; exact Hx|rewrite He, Ha; exact Hna|].
    apply (modify_ok env self log f1); [rewrite Ht; exact Hf1|exact Hio].
Qed.

Lemma zero_em_is_rejected_witness :
  (glyphs font_zero_em "x" = Some {| width := 600 |}
   /\ em font_zero_em = 0
   /\ modify (sample_env (sample_config "a.sfd" "aX" 91) font_zero_em)
        (sample_self "aX" (YInt 91) font_zero_em) []
      = (inl ZeroDivisionError, []))
  /\ (em font_1000_800_600 <> 0
      /\ exists self' log',
           modify (sample_env (sample_config "a.sfd" "aX" 91) font_1000_800_600)
             (sample_self "aX" (YInt 91) font_1000_800_600) []
           = (inr self', log')).
Proof.
  split.
  - split; [reflexivity|]. split; [reflexivity|].
    apply (zero_em_is_rejected
             (sample_env (sample_config "a.sfd" "aX" 91) font_zero_em)
             (sample_self "aX" (YInt 91) font_zero_em) [] {| width := 600 |} 91);
      try reflexivity; unfold c_int; cbn; lia.
  - split; [cbn; lia|].
    apply (zero_em_is_rejected
             (sample_env (sample_config "a.sfd" "aX" 91) font_1000_800_600)
             (sample_self "aX" (YInt 91) font_1000_800_600) [] {| width := 600 |} 91);
      try reflexivity; unfold c_int; cbn; lia.
Defined.

(** ** Strings *)

Lemma prefix_app s t : String.prefix s (s ++ t) = true.
Proof.
  induction s as [|a s IH]; cbn.
  - destruct t; reflexivity.
  - destruct (ascii_dec a a) as [_|N]; [exact IH|congruence].
Qed.

Lemma contains_prefix s t : contains s (s ++ t) = true.
Proof.
  destruct s as [|a s]; [destruct t; reflexivity|].
  cbn [append contains]. change (String a (s ++ t)) with (String a s ++ t)%string.
  rewrite prefix_app. reflexivity.
Qed.

Lemma contains_app pre s post : contains s (pre ++ s ++ post) = true.
Proof.
  induction pre as [|a pre IH]; cbn [append].
  - apply contains_prefix.
  - cbn [contains]. rewrite IH. destruct (String.prefix s _); reflexivity.
Qed.

Lemma contains_suffix pre s : contains s (pre ++ s) = true.
Proof.
  pose proof (contains_app pre s EmptyString) as H.
  assert (E : forall u : string, (u ++ EmptyString)%string = u)
    by (induction u as [|c u IHu]; cbn; congruence).
  rewrite E in H. exact H.
Qed.

(** ** C6 *)

(** C6, as stated, fails: after renaming "Foo" to "FooX" the comment does
    not contain "FooX". *)
Lemma comment_lacks_new_name :
  ~ (forall env self log self' log',
       modify env self log = (inr self', log') ->
       contains (new_name self) (comment (font self')) = true
       /\ contains (fontname (font self)) (comment (font self')) = true).
Proof.
  intros H.
  pose (env0 := sample_env (sample_config "Foo.sfd" "FooX" 91) font_Foo).
  pose (self0 := sample_self "FooX" (YInt 91) font_Foo).
  pose (r := modify env0 self0 []).
  specialize (H env0 self0 []
                (match fst r with inr s => s | inl _ => self0 end) (snd r)).
  destruct H as [H _]; [vm_compute; reflexivity|].
  vm_compute in H. discriminate H.
Qed.

(** C6 (amended): after [modify] the comment is the fixed sentence followed
    by the old font name, so it contains the old name, whatever the new name
    is. *)
Theorem comment_names_old_font (env : Env) (self self' : FontX)
    (log log' : list Effect) :
  modify env self log = (inr self', log') ->
  comment (font self')
    = ("This font is the X version(EM W:H=1:2) of " ++ fontname (font self))%string
  /\ contains (fontname (font self)) (comment (font self')) = true.
Proof.
  intros H. destruct (modify_inv _ _ _ _ _ H) as (f1 & _ & Hf & _).
  assert (E : comment (font self')
              = ("This font is the X version(EM W:H=1:2) of "
                 ++ fontname (font self))%string)
    by (rewrite Hf; reflexivity).
  split; [exact E|]. rewrite E. apply contains_suffix.
Qed.

Lemma comment_names_old_font_witness :
  exists self' log',
    modify (sample_env (sample_config "Foo.sfd" "FooX" 91) font_Foo)
      (sample_self "FooX" (YInt 91) font_Foo) [] = (inr self', log')
    /\ comment (font self') = "This font is the X version(EM W:H=1:2) of Foo"%string
    /\ contains "Foo" (comment (font self')) = true.
Proof.
  eexists. eexists. split; [vm_compute; reflexivity|].
  eapply (comment_names_old_font
            (sample_env (sample_config "Foo.sfd" "FooX" 91) font_Foo)
            (sample_self "FooX" (YInt 91) font_Foo) _ [] _).
  vm_compute. reflexivity.
Defined.

(** ** C7 *)

(** C7: after [modify] the copyright is the original copyright, a newline,
    and the new comment. *)
Theorem copyright_gets_comment_appended (env : Env) (self self' : FontX)
    (log log' : list Effect) :
  modify env self log = (inr self', log') ->
  copyright (font self')
    = (copyright (font self) ++ newline ++ comment (font self'))%string.
Proof.
  intros H. destruct (modify_inv _ _ _ _ _ H) as (f1 & Hm & Hf & _).
  destruct (modify_metrics_inv _ _ _ Hm) as (x & a & t & HH).
  decompose [and] HH. rewrite Hf. cbn.
  match goal with E : copyright f1 = _ |- _ => rewrite E end.
  reflexivity.
Qed.

Lemma copyright_gets_comment_appended_witness :
  exists self' log',
    modify (sample_env (sample_config "Foo.sfd" "FooX" 91) font_Foo)
      (sample_self "FooX" (YInt 91) font_Foo) [] = (inr self', log')
    /\ copyright (font self')
       = ("(c) Foo" ++ newline
          ++ "This font is the X version(EM W:H=1:2) of Foo")%string.
Proof.
  eexists. eexists. split; [vm_compute; reflexivity|].
  etransitivity.
  - eapply (copyright_gets_comment_appended
              (sample_env (sample_config "Foo.sfd" "FooX" 91) font_Foo)
              (sample_self "FooX" (YInt 91) font_Foo) _ [] _).
    vm_compute. reflexivity.
  - reflexivity.
Defined.

(** * Paths and the method [__init__] *)

Lemma root_of_relative s : isabs s = false -> root_of s = NoRoot.
Proof.
  destruct s as [|a [|b [|c s]]]; cbn; intros H; try rewrite H; reflexivity.
Qed.

(** Joining a relative string appends its components. *)
Lemma join_relative p s :
  isabs s = false ->
  join p s = {| root := root p; parts := parts p ++ parts (parse s) |}.
Proof.
  intros H. unfold join. cbn [root parse]. rewrite (root_of_relative s H).
  reflexivity.
Qed.

Lemma has_slash_isabs s : has_slash s = false -> isabs s = false.
Proof.
  destruct s as [|a s]; cbn; [reflexivity|].
  intros H. apply orb_false_iff in H. tauto.
Qed.

Lemma split_slash_plain s : has_slash s = false -> split_slash s = [s].
Proof.
  induction s as [|a s IH]; cbn; [reflexivity|].
  intros H. apply orb_false_iff in H. destruct H as [Ha Hs].
  rewrite Ha, (IH Hs). reflexivity.
Qed.

(** A plain name is a path of one component. *)
Lemma parse_plain s :
  plain_name s = true -> parse s = {| root := NoRoot; parts := [s] |}.
Proof.
  unfold plain_name. intros H. apply andb_true_iff in H. destruct H as [Hs Hc].
  apply negb_true_iff in Hs. unfold parse.
  rewrite (root_of_relative s (has_slash_isabs s Hs)), (split_slash_plain s Hs).
  cbn [filter]. rewrite Hc. reflexivity.
Qed.

Lemma join_plain p s :
  plain_name s = true ->
  join p s = {| root := root p; parts := parts p ++ [s] |}.
Proof.
  intros H. unfold join. rewrite (parse_plain s H). reflexivity.
Qed.

Lemma has_slash_app s t : has_slash (s ++ t) = (has_slash s || has_slash t)%bool.
Proof.
  induction s as [|a s IH]; cbn; [reflexivity|].
  rewrite IH, orb_assoc. reflexivity.
Qed.

Lemma length_app s t : String.length (s ++ t) = (String.length s + String.length t)%nat.
Proof. induction s as [|a s IH]; cbn; congruence. Qed.

Lemma eqb_length_neq s t :
  String.length s <> String.length t -> String.eqb s t = false.
Proof.
  intros H. apply String.eqb_neq. intros E. apply H. rewrite E. reflexivity.
Qed.

(** A plain name followed by a dotted extension is a plain name, and it is
    not [".."]. *)
Lemma plain_name_ext s ext :
  plain_name s = true -> has_slash ext = false ->
  (2 <= String.length ext)%nat ->
  plain_name (s ++ ext) = true /\ String.eqb (s ++ ext) ".." = false.
Proof.
  unfold plain_name. intros H Hext Hlen. apply andb_true_iff in H.
  destruct H as [Hs Hc]. apply negb_true_iff in Hs.
  assert (Hl : (1 <= String.length s)%nat).
  { destruct s; [discriminate Hc|cbn; lia]. }
  pose proof (length_app s ext) as Hla.
  split.
  - rewrite has_slash_app, Hs, Hext. cbn [orb negb andb].
    unfold is_component.
    rewrite !eqb_length_neq by (cbn; lia). reflexivity.
  - apply eqb_length_neq. cbn. lia.
Qed.

Lemma parent_join_plain p s : plain_name s = true -> parent (join p s) = p.
Proof.
  intros H. rewrite (join_plain p s H). unfold parent. cbn [root parts].
  rewrite removelast_last. destruct p; reflexivity.
Qed.

Lemma name_join_plain p s : plain_name s = true -> name (join p s) = s.
Proof.
  intros H. rewrite (join_plain p s H). unfold name. cbn [parts].
  apply last_last.
Qed.

(** [abspath] of a path extended by a component other than [".."]. *)
Lemma abspath_join_plain cwd_ p s :
  plain_name s = true -> String.eqb s ".." = false ->
  parent (abspath cwd_ (join p s)) = abspath cwd_ p
  /\ name (abspath cwd_ (join p s)) = s.
Proof.
  intros H Hdd. rewrite (join_plain p s H). unfold abspath, parent, name.
  cbn [root parts].
  assert (E : forall l, fold_left norm_step (l ++ [s]) [] = fold_left norm_step l [] ++ [s]).
  { intros l. rewrite fold_left_app. cbn [fold_left]. unfold norm_step at 1.
    rewrite Hdd. reflexivity. }
  destruct (root p); cbn [root parts]; rewrite ?app_assoc, E;
    rewrite removelast_last, last_last; split; reflexivity.
Qed.

(** What a successful run of [__init__] has read, computed and done. *)
Lemma init_inv env cf log self log' :
  init env cf log = (inr self, log') ->
  exists cfg n th src,
    yaml_load env cf = inr cfg
    /\ cfg "NEW_FONT_NAME"%string = Some (YStr n)
    /\ cfg "PRESET_HARD_CODED_UNDERLINE_THICKNESS"%string = Some th
    /\ cfg "SOURCE_FILE"%string = Some (YStr src)
    /\ new_name self = n
    /\ working_dir self = parent (parse cf)
    /\ target_dir self = join (parent (parse cf)) n
    /\ source_file self = resolve_source (parent (parse cf)) src
    /\ target_source_file self = join (target_dir self) (n ++ ".sfd")
    /\ target_exported_file self = join (target_dir self) (n ++ ".ttf")
    /\ log' = log
         ++ [Makedirs (target_dir self);
             Copy (source_file self) (target_source_file self);
             FontSave (font self);
             FontGenerate (abspath (cwd env) (target_exported_file self)) (font self);
             Chdir (parent (target_source_file self))]
         ++ map System (install_commands env self).
Proof.
  unfold init, bind, lift, config_get.
  destruct (yaml_load env cf) as [e|cfg] eqn:Hy; [discriminate|].
  destruct (cfg "NEW_FONT_NAME"%string) as [[n|?]|] eqn:Hcn; cbn [rbind as_str];
    try discriminate.
  unfold perform at 1.
  destruct (io_ok env (Makedirs _)); [|discriminate].
  destruct (cfg "PRESET_HARD_CODED_UNDERLINE_THICKNESS"%string) as [th|] eqn:Hct;
    [|discriminate].
  destruct (cfg "SOURCE_FILE"%string) as [[src|?]|] eqn:Hcs; cbn [rbind as_str];
    try discriminate.
  unfold perform at 1.
  destruct (io_ok env (Copy _ _)); [|discriminate].
  destruct (fontforge_open env _) as [e|f0]; [discriminate|].
  match goal with |- context [modify env ?s ?l] =>
    destruct (modify env s l) as [[e|self1] log1] eqn:Hmod; [discriminate|] end.
  destruct (modify_inv _ _ _ _ _ Hmod)
    as (f1 & _ & _ & _ & Hn & Hwd & Hts & Hte & Hsf & Htd & Hlog).
  cbn [new_name working_dir target_source_file target_exported_file source_file
       target_dir] in Hn, Hwd, Hts, Hte, Hsf, Htd, Hlog.
  unfold install, bind, perform.
  destruct (io_ok env (Chdir _)); [|discriminate].
  unfold install_commands, run_commands, bind, os_system, ret.
  intros H. injection H as <- <-.
  exists cfg, n, th, src.
  repeat (split; [first [assumption | reflexivity | rewrite Htd; assumption]|]).
  rewrite Hlog, Htd, Hsf, Hts, Hte. cbn [map].
  rewrite <- !app_assoc. reflexivity.
Qed.

(** ** C8 *)

(** C8: a SOURCE_FILE that is not absolute is resolved against the directory
    of the configuration file, an absolute one is used unchanged; the result
    is what gets copied. *)
Theorem source_file_resolution (env : Env) (cf : string) (self : FontX)
    (log log' : list Effect) :
  init env cf log = (inr self, log') ->
  exists cfg src,
    yaml_load env cf = inr cfg
    /\ cfg "SOURCE_FILE"%string = Some (YStr src)
    /\ (isabs src = false ->
        source_file self
        = PLPath {| root := root (parent (parse cf));
                    parts := parts (parent (parse cf)) ++ parts (parse src) |})
    /\ (isabs src = true -> source_file self = PLStr src)
    /\ In (Copy (source_file self) (target_source_file self)) log'.
Proof.
  intros H.
  destruct (init_inv _ _ _ _ _ H)
    as (cfg & n & th & src & Hy & _ & _ & Hs & _ & _ & _ & Hsf & _ & _ & Hlog).
  exists cfg, src. split; [exact Hy|]. split; [exact Hs|].
  split; [|split].
  - intros Hrel. rewrite Hsf. unfold resolve_source. rewrite Hrel. cbn [negb].
    rewrite (join_relative _ _ Hrel). reflexivity.
  - intros Habs. rewrite Hsf. unfold resolve_source. rewrite Habs. reflexivity.
  - rewrite Hlog. apply in_or_app. right. apply in_or_app. left.
    right. left. reflexivity.
Qed.

Lemma source_file_resolution_witness :
  exists self log',
    main (sample_env (sample_config "./src/a.sfd" "aX" 91) font_1000_800_600) []
    = (inr self, log')
    /\ source_file self = PLPath {| root := NoRoot; parts := ["src"; "a.sfd"]%string |}
    /\ In (Copy (source_file self) (target_source_file self)) log'.
Proof.
  eexists. eexists. split; [vm_compute; reflexivity|].
  destruct (source_file_resolution
              (sample_env (sample_config "./src/a.sfd" "aX" 91) font_1000_800_600)
              "./ffxcfg.yml" _ [] _ ltac:(vm_compute; reflexivity))
    as (cfg & src & Hy & Hs & Hrel & _ & Hin).
  injection Hy as <-. injection Hs as <-.
  split; [exact (Hrel eq_refl)|exact Hin].
Defined.

(** an absolute SOURCE_FILE is copied from as it is *)
Example absolute_source_unchanged :
  exists self log',
    main (sample_env (sample_config "/usr/share/a.sfd" "aX" 91) font_1000_800_600) []
    = (inr self, log')
    /\ source_file self = PLStr "/usr/share/a.sfd".
Proof. eexists. eexists. split; vm_compute; reflexivity. Qed.

(** ** C9 *)

(** C9, as stated, fails: with the source [a.ttf] and the new name [aX] the
    copy is named [aX.sfd], not [aX] followed by the source's extension. *)
Lemma copy_is_not_named_after_source_extension :
  ~ (forall env cf log self log' src dst,
       init env cf log = (inr self, log') ->
       In (Copy (PLPath src) dst) log' ->
       name dst = (new_name self ++ suffix src)%string).
Proof.
  intros H.
  pose (env0 := sample_env (sample_config "a.ttf" "aX" 91) font_1000_800_600).
  pose (r := init env0 "./ffxcfg.yml" []).
  specialize (H env0 "./ffxcfg.yml"%string []
                (match fst r with
                 | inr s => s
                 | inl _ => sample_self "aX" (YInt 91) font_1000_800_600
                 end)
                (snd r) (parse "a.ttf") (parse "aX/aX.sfd")).
  assert (E : name (parse "aX/aX.sfd") = "aX.ttf"%string).
  { apply H; [vm_compute; reflexivity|].
    vm_compute. right. left. reflexivity. }
  vm_compute in E. discriminate E.
Qed.

(** C9 (amended): a successful run with a plain NEW_FONT_NAME makes the
    subdirectory of that name in the directory of the configuration file,
    copies the source into it under the name NEW_FONT_NAME followed by
    [.sfd], whatever the extension of the source is, and generates in it the
    font named NEW_FONT_NAME followed by [.ttf]. *)
Theorem output_layout (env : Env) (cf : string) (self : FontX)
    (log log' : list Effect) :
  init env cf log = (inr self, log') ->
  plain_name (new_name self) = true ->
  (exists cfg,
     yaml_load env cf = inr cfg
     /\ cfg "NEW_FONT_NAME"%string = Some (YStr (new_name self)))
  /\ parent (target_dir self) = parent (parse cf)
  /\ name (target_dir self) = new_name self
  /\ In (Makedirs (target_dir self)) log'
  /\ (exists src dst,
        In (Copy src dst) log'
        /\ parent dst = target_dir self
        /\ name dst = (new_name self ++ ".sfd")%string)
  /\ (exists dst f,
        In (FontGenerate dst f) log'
        /\ parent dst = abspath (cwd env) (target_dir self)
        /\ name dst = (new_name self ++ ".ttf")%string).
Proof.
  intros H Hplain.
  destruct (init_inv _ _ _ _ _ H)
    as (cfg & n & th & src & Hy & Hn & _ & _ & Hnn & _ & Htd & _ & Hts & Hte & Hlog).
  subst n.
  destruct (plain_name_ext (new_name self) ".sfd" Hplain eq_refl ltac:(cbn; lia))
    as [Hsfd _].
  destruct (plain_name_ext (new_name self) ".ttf" Hplain eq_refl ltac:(cbn; lia))
    as [Httf Hdd].
  split; [exists cfg; split; assumption|].
  split; [rewrite Htd; apply parent_join_plain; exact Hplain|].
  split; [rewrite Htd; apply name_join_plain; exact Hplain|].
  split; [rewrite Hlog; apply in_or_app; right; apply in_or_app; left; left; reflexivity|].
  split.
  - exists (source_file self), (target_source_file self). split.
    + rewrite Hlog. apply in_or_app. right. apply in_or_app. left.
      right. left. reflexivity.
    + rewrite Hts. split; [apply parent_join_plain|apply name_join_plain]; exact Hsfd.
  - exists (abspath (cwd env) (target_exported_file self)), (font self). split.
    + rewrite Hlog. apply in_or_app. right. apply in_or_app. left.
      right. right. right. left. reflexivity.
    + rewrite Hte. apply abspath_join_plain; assumption.
Qed.

Lemma output_layout_witness :
  exists self log',
    main (sample_env (sample_config "a.sfd" "aX" 91) font_1000_800_600) []
    = (inr self, log')
    /\ plain_name (new_name self) = true
    /\ name (target_dir self) = "aX"%string
    /\ (exists src dst,
          In (Copy src dst) log'
          /\ parent dst = target_dir self
          /\ name dst = "aX.sfd"%string)
    /\ (exists dst f,
          In (FontGenerate dst f) log'
          /\ parent dst = abspath ["home"; "user"; "fonts"]%string (target_dir self)
          /\ name dst = "aX.ttf"%string).
Proof.
  eexists. eexists. split; [vm_compute; reflexivity|].
  split; [reflexivity|].
  destruct (output_layout
              (sample_env (sample_config "a.sfd" "aX" 91) font_1000_800_600)
              "./ffxcfg.yml" _ [] _ ltac:(vm_compute; reflexivity) eq_refl)
    as (_ & _ & Hname & _ & Hcopy & Hgen).
  split; [exact Hname|]. split; [exact Hcopy|exact Hgen].
Defined.

(** ** The documented end-to-end scenario *)

(** Configuration [{SOURCE_FILE: a.sfd, NEW_FONT_NAME: aX, thickness 91}]
    and a font of em 1000, ascent 800, width 600: the output font is named
    [aX], with ascent 960, descent 240 and underline position -149. *)
Example end_to_end_scenario :
  exists self log',
    main (sample_env (sample_config "a.sfd" "aX" 91) font_1000_800_600) []
    = (inr self, log')
    /\ fontname (font self) = "aX"%string
    /\ familyname (font self) = "aX"%string
    /\ fullname (font self) = "aX"%string
    /\ ascent (font self) = 960 /\ descent (font self) = 240
    /\ upos (font self) = -149
    /\ os2_winascent (font self) = 960 /\ os2_windescent (font self) = 240
    /\ os2_typoascent (font self) = 960 /\ os2_typodescent (font self) = -240
    /\ hhea_ascent (font self) = 960 /\ hhea_descent (font self) = -240
    /\ In (FontSave (font self)) log'.
Proof.
  eexists. eexists. split; [vm_compute; reflexivity|].
  cbn. repeat split. right. right. left. reflexivity.
Qed.

(** * Further properties of [modify] and [install] *)

(** The metric block leaves the names, the glyphs and the em size alone. *)
Lemma modify_metrics_keeps th f f' :
  modify_metrics th f = inr f' ->
  fontname f' = fontname f /\ familyname f' = familyname f
  /\ fullname f' = fullname f /\ glyphs f' = glyphs f /\ em f' = em f.
Proof.
  unfold modify_metrics, glyph_lookup.
  destruct (glyphs f "x") as [x|]; cbn [rbind]; [|discriminate].
  destruct (new_ascent (width x) (em f) (ascent f)) as [e|a]; cbn [rbind];
    [discriminate|].
  destruct th as [s|t]; cbn [as_int rbind]; [discriminate|].
  intros H. injection H as <-. repeat split.
Qed.

(** Renaming: after [modify] the three names of the font are the new name,
    and the old font name is kept in [old_name]. *)
Theorem modify_renames (env : Env) (self self' : FontX) (log log' : list Effect) :
  modify env self log = (inr self', log') ->
  fontname (font self') = new_name self
  /\ familyname (font self') = new_name self
  /\ fullname (font self') = new_name self
  /\ old_name self' = Some (fontname (font self))
  /\ new_name self' = new_name self.
Proof.
  intros H.
  destruct (modify_inv _ _ _ _ _ H) as (f1 & Hm & Hf & Hold & Hnew & _).
  destruct (modify_metrics_keeps _ _ _ Hm) as (H1 & H2 & H3 & _).
  rewrite Hf. cbn. rewrite H1, H2, H3. repeat split; assumption.
Qed.

Lemma modify_renames_witness :
  exists self' log',
    modify (sample_env (sample_config "Foo.sfd" "FooX" 91) font_Foo)
      (sample_self "FooX" (YInt 91) font_Foo) [] = (inr self', log')
    /\ fontname (font self') = "FooX"%string
    /\ familyname (font self') = "FooX"%string
    /\ fullname (font self') = "FooX"%string
    /\ old_name self' = Some "Foo"%string
    /\ new_name self' = "FooX"%string.
Proof.
  eexists. eexists. split; [vm_compute; reflexivity|].
  eapply (modify_renames
            (sample_env (sample_config "Foo.sfd" "FooX" 91) font_Foo)
            (sample_self "FooX" (YInt 91) font_Foo) _ [] _).
  vm_compute. reflexivity.
Defined.

Lemma modify_glyph_missing env self log :
  glyphs (font self) "x" = None ->
  modify env self log = (inl TypeError, log).
Proof.
  intros Hx. unfold modify, bind, lift, modify_metrics, glyph_lookup.
  destruct (modify_names_font self) as (Hg & _). rewrite Hg, Hx. reflexivity.
Qed.

(** A font without the glyph [x]: [modify] stops with FontForge's
    [TypeError] and nothing is saved or generated. *)
Theorem modify_without_glyph_x (env : Env) (self : FontX) (log : list Effect) :
  glyphs (font self) "x" = None ->
  modify env self log = (inl TypeError, log).
Proof. apply modify_glyph_missing. Qed.

Lemma modify_without_glyph_x_witness :
  glyphs font_no_x "x" = None
  /\ modify (sample_env (sample_config "a.sfd" "aX" 91) font_no_x)
       (sample_self "aX" (YInt 91) font_no_x) [] = (inl TypeError, []).
Proof.
  split; [reflexivity|].
  apply (modify_without_glyph_x
           (sample_env (sample_config "a.sfd" "aX" 91) font_no_x)
           (sample_self "aX" (YInt 91) font_no_x) []).
  reflexivity.
Defined.

(** A thickness preset that is a string: [modify] never succeeds and saves
    nothing; when the new ascent can be computed the error is the
    [TypeError] of the subtraction. *)
Theorem modify_with_string_thickness (env : Env) (self : FontX)
    (log : list Effect) (s : string) :
  PRESET_HARD_CODED_UNDERLINE_THICKNESS self = YStr s ->
  (exists e, modify env self log = (inl e, log))
  /\ (forall x, glyphs (font self) "x" = Some x ->
                c_int (width x) -> c_int (em (font self)) ->
                c_int (ascent (font self)) -> em (font self) <> 0 ->
                modify env self log = (inl TypeError, log)).
Proof.
  intros Hs.
  destruct (modify_names_font self) as (Hg & He & Ha & _).
  assert (Hstep : forall x a,
            glyphs (font self) "x" = Some x ->
            new_ascent (width x) (em (font self)) (ascent (font self)) = inr a ->
            modify env self log = (inl TypeError, log)).
  { intros x a Hx Hna. unfold modify, bind, lift, modify_metrics, glyph_lookup.
    change (PRESET_HARD_CODED_UNDERLINE_THICKNESS (modify_names self))
      with (PRESET_HARD_CODED_UNDERLINE_THICKNESS self).
    rewrite Hg, Hx, He, Ha, Hs. cbn [rbind]. rewrite Hna. reflexivity. }
  split.
  - destruct (glyphs (font self) "x") as [x|] eqn:Hx.
    + destruct (new_ascent (width x) (em (font self)) (ascent (font self)))
        as [e|a] eqn:Hna.
      * exists e. unfold modify, bind, lift.
        rewrite (modify_metrics_raises _ (font (modify_names self)) x e);
          [reflexivity|rewrite Hg; exact Hx|rewrite He, Ha; exact Hna].
      * exists TypeError. exact (Hstep x a eq_refl Hna).
    + exists TypeError. apply modify_glyph_missing. exact Hx.
  - intros x Hx Hw Hem Hasc Hnz.
    destruct (new_ascent_total (width x) (em (font self)) (ascent (font self))
                Hw Hem Hasc Hnz) as (a & Hna).
    exact (Hstep x a Hx Hna).
Qed.

Lemma modify_with_string_thickness_witness :
  modify (sample_env (sample_config "a.sfd" "aX" 91) font_1000_800_600)
    (sample_self "aX" (YStr "91") font_1000_800_600) [] = (inl TypeError, []).
Proof.
  apply (proj2 (modify_with_string_thickness
                  (sample_env (sample_config "a.sfd" "aX" 91) font_1000_800_600)
                  (sample_self "aX" (YStr "91") font_1000_800_600) [] "91" eq_refl)
           {| width := 600 |});
    try reflexivity; unfold c_int; cbn; lia.
Defined.

Lemma modify_outcome_cases env self log log' (r : result FontX) :
  modify env self log = (r, log') ->
  (log' = log /\ exists e, r = inl e)
  \/ (exists f, log' = log ++ [FontSave f] /\ r = inl OSError)
  \/ (exists self',
        r = inr self'
        /\ log' = log ++ [FontSave (font self');
                          FontGenerate
                            (abspath (cwd env) (target_exported_file self))
                            (font self')]).
Proof.
  unfold modify, bind, lift, perform, ret, raise.
  destruct (modify_metrics _ (font (modify_names self))) as [e|f1];
    [intros H; injection H as <- <-; left; eauto|].
  cbn [get_old_name old_name set_font modify_names set_old_name].
  destruct (io_ok env (FontSave _));
    [|intros H; injection H as <- <-; left; eauto].
  destruct (io_ok env (FontGenerate _ _)); intros H; injection H as <- <-.
  - right. right. eexists. split; [reflexivity|].
    rewrite <- app_assoc. reflexivity.
  - right. left. eexists. split; reflexivity.
Qed.

(** Whatever the outcome, [modify] saves before it generates, and what it
    generates is the font it saved and returns: either nothing was done, or
    the font was saved and its generation refused, or it was saved and then
    generated at the absolute path of the exported file. *)
Theorem modify_saves_then_generates (env : Env) (self : FontX)
    (log log' : list Effect) (r : result FontX) :
  modify env self log = (r, log') ->
  (log' = log /\ exists e, r = inl e)
  \/ (exists f, log' = log ++ [FontSave f] /\ r = inl OSError)
  \/ (exists self',
        r = inr self'
        /\ log' = log ++ [FontSave (font self');
                          FontGenerate
                            (abspath (cwd env) (target_exported_file self))
                            (font self')]).
Proof. apply modify_outcome_cases. Qed.

Lemma modify_saves_then_generates_witness :
  exists self',
    modify (sample_env (sample_config "a.sfd" "aX" 91) font_1000_800_600)
      (sample_self "aX" (YInt 91) font_1000_800_600) []
    = (inr self',
       [FontSave (font self');
        FontGenerate
          {| root := Slash; parts := ["home"; "user"; "fonts"; "aX"; "aX.ttf"]%string |}
          (font self')]).
Proof.
  pose (env0 := sample_env (sample_config "a.sfd" "aX" 91) font_1000_800_600).
  pose (self0 := sample_self "aX" (YInt 91) font_1000_800_600).
  pose (r := modify env0 self0 []).
  destruct (modify_saves_then_generates env0 self0 [] (snd r) (fst r)
              (surjective_pairing r)) as [[_ [e He]]|[[f [_ Hf]]|[self' [Hr Hl]]]].
  - vm_compute in He. discriminate He.
  - vm_compute in Hf. discriminate Hf.
  - exists self'. change (r = (inr self',
       [FontSave (font self');
        FontGenerate
          {| root := Slash; parts := ["home"; "user"; "fonts"; "aX"; "aX.ttf"]%string |}
          (font self')])).
    rewrite (surjective_pairing r), Hr, Hl. reflexivity.
Defined.

(** The loop over the shell commands issues every command, in order, and
    raises nothing, whatever the commands are. *)
Lemma run_commands_log cmds log :
  run_commands cmds log = (inr tt, log ++ map System cmds).
Proof.
  revert log. induction cmds as [|c cmds IH]; intros log; cbn [run_commands map].
  - unfold ret. rewrite app_nil_r. reflexivity.
  - unfold bind, os_system. rewrite IH, <- app_assoc. reflexivity.
Qed.

Lemma install_log env self log :
  install env self log
  = if io_ok env (Chdir (parent (target_source_file self)))
    then (inr tt,
          log ++ Chdir (parent (target_source_file self))
              :: map System (install_commands env self))
    else (inl OSError, log).
Proof.
  unfold install, bind, perform, raise.
  destruct (io_ok env (Chdir _)); [|reflexivity].
  rewrite run_commands_log, <- app_assoc. reflexivity.
Qed.

(** [install] can only fail at the change of directory, before any command
    is run; past it the four commands are all issued, in the order of the
    source, and the exit status of none of them is looked at. *)
Theorem install_outcome (env : Env) (self : FontX) (log : list Effect) :
  install env self log
  = if io_ok env (Chdir (parent (target_source_file self)))
    then (inr tt,
          log ++ Chdir (parent (target_source_file self))
              :: map System (install_commands env self))
    else (inl OSError, log).
Proof. apply install_log. Qed.

(** * Further properties of [__init__] *)

(** ** The configuration *)

(** A configuration without NEW_FONT_NAME ends the run with [KeyError], one
    whose NEW_FONT_NAME is a number with [TypeError], and a configuration
    that cannot be loaded with the error of the loader: in all three cases
    before anything is created. *)
Theorem init_fails_before_any_effect (env : Env) (cf : string) (log : list Effect) :
  (forall e, yaml_load env cf = inl e -> init env cf log = (inl e, log))
  /\ (forall cfg, yaml_load env cf = inr cfg ->
        cfg "NEW_FONT_NAME"%string = None ->
        init env cf log = (inl KeyError, log))
  /\ (forall cfg n, yaml_load env cf = inr cfg ->
        cfg "NEW_FONT_NAME"%string = Some (YInt n) ->
        init env cf log = (inl TypeError, log)).
Proof.
  repeat split.
  - intros e He. unfold init, bind, lift. rewrite He. reflexivity.
  - intros cfg Hy Hn. unfold init, bind, lift, config_get. rewrite Hy, Hn. reflexivity.
  - intros cfg n Hy Hn. unfold init, bind, lift, config_get. rewrite Hy, Hn. reflexivity.
Qed.

Lemma init_fails_before_any_effect_witness :
  init (sample_env (fun _ => None) font_1000_800_600) "./ffxcfg.yml" []
  = (inl KeyError, []).
Proof.
  apply (proj1 (proj2 (init_fails_before_any_effect
                         (sample_env (fun _ => None) font_1000_800_600)
                         "./ffxcfg.yml" []))
           (fun _ => None)); reflexivity.
Defined.

(** With NEW_FONT_NAME in place the subdirectory is made first; a missing
    thickness preset, a missing SOURCE_FILE or a SOURCE_FILE that is a number
    then ends the run ([KeyError], [KeyError], [TypeError]) with the
    directory made and nothing copied into it. *)
Theorem init_fails_after_makedirs (env : Env) (cf : string) (log : list Effect)
    (cfg : Config) (n : string) :
  yaml_load env cf = inr cfg ->
  cfg "NEW_FONT_NAME"%string = Some (YStr n) ->
  io_ok env (Makedirs (join (parent (parse cf)) n)) = true ->
  let made := log ++ [Makedirs (join (parent (parse cf)) n)] in
  (cfg "PRESET_HARD_CODED_UNDERLINE_THICKNESS"%string = None ->
   init env cf log = (inl KeyError, made))
  /\ (forall th, cfg "PRESET_HARD_CODED_UNDERLINE_THICKNESS"%string = Some th ->
        cfg "SOURCE_FILE"%string = None ->
        init env cf log = (inl KeyError, made))
  /\ (forall th k, cfg "PRESET_HARD_CODED_UNDERLINE_THICKNESS"%string = Some th ->
        cfg "SOURCE_FILE"%string = Some (YInt k) ->
        init env cf log = (inl TypeError, made)).
Proof.
  intros Hy Hn Hio made. repeat split.
  - intros Ht. unfold init, bind, lift, config_get, perform.
    rewrite Hy, Hn. cbn [rbind as_str]. rewrite Hio, Ht. reflexivity.
  - intros th Ht Hs. unfold init, bind, lift, config_get, perform.
    rewrite Hy, Hn. cbn [rbind as_str]. rewrite Hio, Ht, Hs. reflexivity.
  - intros th k Ht Hs. unfold init, bind, lift, config_get, perform.
    rewrite Hy, Hn. cbn [rbind as_str]. rewrite Hio, Ht, Hs. reflexivity.
Qed.

Lemma init_fails_after_makedirs_witness :
  init (sample_env only_new_font_name font_1000_800_600) "./ffxcfg.yml" []
  = (inl KeyError, [Makedirs {| root := NoRoot; parts := ["aX"%string] |}]).
Proof.
  apply (proj1 (init_fails_after_makedirs
                  (sample_env only_new_font_name font_1000_800_600)
                  "./ffxcfg.yml" [] only_new_font_name "aX"
                  eq_refl eq_refl eq_refl)).
  reflexivity.
Defined.

(** When FontForge cannot open the copy, the run ends with its error; the
    subdirectory and the copy stay, nothing is saved, generated or
    installed. *)
Theorem init_open_failure_leaves_copy (env : Env) (cf : string)
    (log : list Effect) (cfg : Config) (n src : string) (th : YamlValue)
    (e : PyExc) :
  yaml_load env cf = inr cfg ->
  cfg "NEW_FONT_NAME"%string = Some (YStr n) ->
  cfg "PRESET_HARD_CODED_UNDERLINE_THICKNESS"%string = Some th ->
  cfg "SOURCE_FILE"%string = Some (YStr src) ->
  let wd := parent (parse cf) in
  let dir := join wd n in
  let dst := join dir (n ++ ".sfd") in
  io_ok env (Makedirs dir) = true ->
  io_ok env (Copy (resolve_source wd src) dst) = true ->
  fontforge_open env (abspath (cwd env) dst) = inl e ->
  init env cf log
  = (inl e, log ++ [Makedirs dir; Copy (resolve_source wd src) dst]).
Proof.
  intros Hy Hn Ht Hs wd dir dst Hmk Hcp Hop.
  unfold init, bind, lift, config_get, perform.
  rewrite Hy, Hn. cbn [rbind as_str]. fold wd. fold dir.
  rewrite Hmk, Ht, Hs. cbn [rbind as_str]. fold dst.
  rewrite Hcp, Hop, <- app_assoc. reflexivity.
Qed.

Lemma init_open_failure_leaves_copy_witness :
  init env_open_fails "./ffxcfg.yml" []
  = (inl OSError,
     [Makedirs {| root := NoRoot; parts := ["aX"%string] |};
      Copy (PLPath {| root := NoRoot; parts := ["a.sfd"%string] |})
        {| root := NoRoot; parts := ["aX"; "aX.sfd"]%string |}]).
Proof.
  apply (init_open_failure_leaves_copy env_open_fails "./ffxcfg.yml" []
           (sample_config "a.sfd" "aX" 91) "aX" "a.sfd" (YInt 91) OSError);
    reflexivity.
Defined.

(** ** The order of the effects *)

(** Whatever the outcome of a run, its effects come in the order of the
    pipeline: a command is run only after the change of directory, which
    follows the generation of the font, which follows the saving of that
    same font, which follows the copy, which follows the creation of the
    subdirectory. *)
Theorem effects_follow_the_pipeline (env : Env) (cf : string)
    (r : result FontX) (log' : list Effect) :
  init env cf [] = (r, log') ->
  (forall c, In (System c) log' -> exists d, In (Chdir d) log')
  /\ (forall d, In (Chdir d) log' -> exists p f, In (FontGenerate p f) log')
  /\ (forall p f, In (FontGenerate p f) log' -> In (FontSave f) log')
  /\ (forall f, In (FontSave f) log' -> exists s t, In (Copy s t) log')
  /\ (forall s t, In (Copy s t) log' -> exists d, In (Makedirs d) log').
Proof.
  unfold init, bind, lift, config_get, perform, raise.
  destruct (yaml_load env cf) as [e|cfg].
  { intros H; injection H as <- <-. cbn. repeat split; intros; contradiction. }
  destruct (cfg "NEW_FONT_NAME"%string) as [[n|?]|]; cbn [rbind as_str].
  2,3: intros H; injection H as <- <-; cbn; repeat split; intros; contradiction.
  destruct (io_ok env (Makedirs _)).
  2: intros H; injection H as <- <-; cbn; repeat split; intros; contradiction.
  destruct (cfg "PRESET_HARD_CODED_UNDERLINE_THICKNESS"%string) as [th|].
  2: { intros H; injection H as <- <-. cbn.
       repeat split; intros; intuition (try discriminate; eauto). }
  destruct (cfg "SOURCE_FILE"%string) as [[src|?]|]; cbn [rbind as_str].
  2,3: intros H; injection H as <- <-; cbn;
       repeat split; intros; intuition (try discriminate; eauto).
  destruct (io_ok env (Copy _ _)).
  2: { intros H; injection H as <- <-. cbn.
       repeat split; intros; intuition (try discriminate; eauto). }
  destruct (fontforge_open env _) as [e|f0].
  { intros H; injection H as <- <-. cbn.
    repeat split; intros; intuition (try discriminate; eauto). }
  match goal with |- context [modify env ?s ?l] =>
    destruct (modify env s l) as [r1 log1] eqn:Hmod end.
  apply modify_outcome_cases in Hmod.
  destruct Hmod as [[Hl [e He]]|[[f [Hl He]]|[self1 [He Hl]]]]; subst r1 log1.
  - intros H; injection H as <- <-. cbn.
    repeat split; intros; intuition (try discriminate; eauto).
  - intros H; injection H as <- <-. cbn.
    repeat split; intros; intuition (try discriminate; eauto).
  - rewrite install_log.
    destruct (io_ok env (Chdir _)); intros H; injection H as <- <-.
    + repeat split; intros; cbn; eauto 10.
      match goal with Hin : In (FontGenerate _ _) _ |- _ =>
        cbn in Hin; intuition (try discriminate) end.
      match goal with Heq : FontGenerate _ _ = FontGenerate _ _ |- _ =>
        injection Heq as _ <- end.
      eauto 10.
    + cbn. repeat split; intros; intuition (try discriminate; eauto 10).
      match goal with Heq : FontGenerate _ _ = FontGenerate _ _ |- _ =>
        injection Heq as _ <- end.
      eauto 10.
Qed.

Lemma effects_follow_the_pipeline_witness :
  exists r log',
    init (sample_env (sample_config "a.sfd" "aX" 91) font_1000_800_600) "./ffxcfg.yml" []
    = (r, log')
    /\ (forall c, In (System c) log' -> exists d, In (Chdir d) log')
    /\ (forall d, In (Chdir d) log' -> exists p f, In (FontGenerate p f) log')
    /\ (forall p f, In (FontGenerate p f) log' -> In (FontSave f) log')
    /\ (forall f, In (FontSave f) log' -> exists s t, In (Copy s t) log')
    /\ (forall s t, In (Copy s t) log' -> exists d, In (Makedirs d) log').
Proof.
  pose (run := init (sample_env (sample_config "a.sfd" "aX" 91) font_1000_800_600)
                 "./ffxcfg.yml" []).
  exists (fst run), (snd run). split; [apply surjective_pairing|].
  apply (effects_follow_the_pipeline
           (sample_env (sample_config "a.sfd" "aX" 91) font_1000_800_600) "./ffxcfg.yml"
           (fst run) (snd run)).
  apply surjective_pairing.
Defined.

(** ** What a run needs to succeed *)

(** A run succeeds when the configuration has its three keys, with strings
    for NEW_FONT_NAME and SOURCE_FILE and an int for the thickness, FontForge
    opens the copy as a font with a glyph [x], C-int metrics and a non-zero
    em size, and the outside world refuses nothing. *)
Theorem init_succeeds (env : Env) (cf : string) (log : list Effect)
    (cfg : Config) (n src : string) (t : Z) (f0 : Font) (x : Glyph) :
  yaml_load env cf = inr cfg ->
  cfg "NEW_FONT_NAME"%string = Some (YStr n) ->
  cfg "PRESET_HARD_CODED_UNDERLINE_THICKNESS"%string = Some (YInt t) ->
  cfg "SOURCE_FILE"%string = Some (YStr src) ->
  fontforge_open env
    (abspath (cwd env) (join (join (parent (parse cf)) n) (n ++ ".sfd"))) = inr f0 ->
  glyphs f0 "x" = Some x ->
  c_int (width x) -> c_int (em f0) -> c_int (ascent f0) -> em f0 <> 0 ->
  (forall e, io_ok env e = true) ->
  exists self log',
    init env cf log = (inr self, log') /\ new_name self = n.
Proof.
  intros Hy Hn Ht Hs Hop Hx Hw Hem Hasc Hnz Hio.
  destruct (new_ascent_total (width x) (em f0) (ascent f0) Hw Hem Hasc Hnz)
    as (a & Ha).
  unfold init, bind, lift, config_get, perform.
  rewrite Hy, Hn. cbn [rbind as_str]. rewrite Hio, Ht, Hs. cbn [rbind as_str].
  rewrite Hio, Hop.
  match goal with |- context [modify env ?s ?l] =>
    destruct (modify_metrics_ok t (font (modify_names s)) x a Hx Ha) as (f1 & Hf1);
    destruct (modify_ok env s l f1 Hf1 Hio) as (self1 & log1 & Hmod);
    pose proof (modify_inv _ _ _ _ _ Hmod) as Hinv
  end.
  rewrite Hmod, install_log, Hio.
  destruct Hinv as (_ & _ & _ & _ & Hnew & _).
  exists self1. eexists. split; [reflexivity|exact Hnew].
Qed.

Lemma init_succeeds_witness :
  exists self log',
    init (sample_env (sample_config "a.sfd" "aX" 91) font_1000_800_600)
      "./ffxcfg.yml" [] = (inr self, log')
    /\ new_name self = "aX"%string.
Proof.
  apply (init_succeeds
           (sample_env (sample_config "a.sfd" "aX" 91) font_1000_800_600)
           "./ffxcfg.yml" [] (sample_config "a.sfd" "aX" 91) "aX" "a.sfd" 91
           font_1000_800_600 {| width := 600 |});
    try reflexivity; unfold c_int; cbn; lia.
Defined.

(** * Further properties of the paths *)

Lemma root_of_absolute s : isabs s = true -> root_of s <> NoRoot.
Proof.
  destruct s as [|a [|b [|c s]]]; cbn; intros H; try rewrite H;
    try discriminate; destruct (Ascii.eqb b slash); try destruct (Ascii.eqb c slash);
    discriminate.
Qed.

(** Joining an absolute string replaces the path. *)
Lemma join_absolute p s : isabs s = true -> join p s = parse s.
Proof.
  intros H. unfold join. pose proof (root_of_absolute s H) as Hr.
  cbn [root parse] in *. destruct (root_of s); [congruence|reflexivity..].
Qed.

(** The test on [os.path.isabs] decides whether the source is kept as a
    string or as a path, not where it points: in both branches the source
    file denotes [working_dir / _src]. *)
Theorem resolve_source_is_join (working_dir : Path) (_src : string) :
  path_of (resolve_source working_dir _src) = join working_dir _src.
Proof.
  unfold resolve_source. destruct (isabs _src) eqn:H; cbn [negb path_of].
  - symmetry. apply join_absolute. exact H.
  - reflexivity.
Qed.

Lemma Forall_removelast {A : Type} (P : A -> Prop) (l : list A) :
  Forall P l -> Forall P (removelast l).
Proof.
  induction 1 as [|a l Ha Hl IH]; cbn; [constructor|].
  destruct l; [constructor|]. constructor; assumption.
Qed.

Lemma norm_step_no_dotdot l : forall acc,
  no_dotdot acc -> no_dotdot (fold_left norm_step l acc).
Proof.
  unfold no_dotdot.
  induction l as [|c l IH]; intros acc Hacc; cbn [fold_left]; [exact Hacc|].
  apply IH. unfold norm_step. destruct (String.eqb c "..") eqn:E.
  - apply Forall_removelast. exact Hacc.
  - apply Forall_app. split; [exact Hacc|]. constructor; [exact E|constructor].
Qed.

Lemma norm_step_id l : forall acc,
  no_dotdot l -> fold_left norm_step l acc = acc ++ l.
Proof.
  unfold no_dotdot.
  induction l as [|c l IH]; intros acc Hl; cbn [fold_left].
  - rewrite app_nil_r. reflexivity.
  - inversion Hl as [|? ? Hc Hl']; subst.
    rewrite (IH _ Hl'). unfold norm_step. rewrite Hc, <- app_assoc. reflexivity.
Qed.

(** [abspath] yields an absolute path without [".."]. *)
Lemma abspath_normal cwd_ p :
  root (abspath cwd_ p) <> NoRoot /\ no_dotdot (parts (abspath cwd_ p)).
Proof.
  unfold abspath. destruct (root p) eqn:Hr; cbn [root parts];
    (split; [discriminate|apply norm_step_no_dotdot; constructor]).
Qed.

(** The font is generated at an absolute path without [".."], whatever the
    path of the configuration file and the new name are. *)
Theorem modify_generates_at_absolute_path (env : Env) (self self' : FontX)
    (log log' : list Effect) :
  modify env self log = (inr self', log') ->
  exists p,
    log' = log ++ [FontSave (font self'); FontGenerate p (font self')]
    /\ root p <> NoRoot
    /\ no_dotdot (parts p).
Proof.
  intros H. destruct (modify_inv _ _ _ _ _ H) as (f1 & Hrest).
  decompose [and] Hrest.
  exists (abspath (cwd env) (target_exported_file self)).
  split; [assumption|]. apply abspath_normal.
Qed.

Lemma modify_generates_at_absolute_path_witness :
  exists self' log' p,
    modify (sample_env (sample_config "a.sfd" "aX" 91) font_1000_800_600)
      (sample_self "../aX" (YInt 91) font_1000_800_600) [] = (inr self', log')
    /\ log' = [FontSave (font self'); FontGenerate p (font self')]
    /\ root p <> NoRoot
    /\ no_dotdot (parts p).
Proof.
  eexists. eexists.
  destruct (modify_generates_at_absolute_path
              (sample_env (sample_config "a.sfd" "aX" 91) font_1000_800_600)
              (sample_self "../aX" (YInt 91) font_1000_800_600) _ [] _
              ltac:(vm_compute; reflexivity)) as (p & Hl & Hr & Hn).
  exists p. split; [vm_compute; reflexivity|]. split; [exact Hl|]. split; assumption.
Defined.

(** With the default configuration path ["./ffxcfg.yml"], a successful run
    makes the subdirectory, the copy and the generated font under the
    current directory: [<cwd>/<name>/<name>.sfd] and [<cwd>/<name>/<name>.ttf],
    for a plain new name other than [".."]. *)
Theorem main_output_location (env : Env) (self : FontX) (log' : list Effect) :
  main env [] = (inr self, log') ->
  plain_name (new_name self) = true ->
  String.eqb (new_name self) ".." = false ->
  no_dotdot (cwd env) ->
  let n := new_name self in
  In (Makedirs {| root := NoRoot; parts := [n] |}) log'
  /\ In (Copy (source_file self)
           {| root := NoRoot; parts := [n; (n ++ ".sfd")%string] |}) log'
  /\ In (FontGenerate
           {| root := Slash; parts := cwd env ++ [n; (n ++ ".ttf")%string] |}
           (font self)) log'.
Proof.
  intros H Hplain Hdd Hcwd n. unfold main in H.
  destruct (init_inv _ _ _ _ _ H)
    as (cfg & n' & th & src & _ & _ & _ & _ & Hnn & _ & Htd & _ & Hts & Hte & Hlog).
  subst n'. fold n in Htd, Hts, Hte.
  destruct (plain_name_ext n ".sfd" Hplain eq_refl ltac:(cbn; lia)) as [Hsfd _].
  destruct (plain_name_ext n ".ttf" Hplain eq_refl ltac:(cbn; lia)) as [Httf Hdd'].
  assert (Edir : target_dir self = {| root := NoRoot; parts := [n] |}).
  { rewrite Htd. rewrite (join_plain _ n Hplain). reflexivity. }
  assert (Esrc : target_source_file self
                 = {| root := NoRoot; parts := [n; (n ++ ".sfd")%string] |}).
  { rewrite Hts, Edir, (join_plain _ _ Hsfd). reflexivity. }
  assert (Eexp : abspath (cwd env) (target_exported_file self)
                 = {| root := Slash; parts := cwd env ++ [n; (n ++ ".ttf")%string] |}).
  { rewrite Hte, Edir, (join_plain _ _ Httf). unfold abspath. cbn [root parts app].
    rewrite norm_step_id; [reflexivity|].
    unfold no_dotdot in *. apply Forall_app. split; [exact Hcwd|].
    repeat constructor; assumption. }
  rewrite <- Edir, <- Esrc, <- Eexp, Hlog.
  repeat split; apply in_or_app; right; apply in_or_app; left; cbn; auto 6.
Qed.

Lemma main_output_location_witness :
  exists self log',
    main (sample_env (sample_config "a.sfd" "aX" 91) font_1000_800_600) []
    = (inr self, log')
    /\ In (Makedirs {| root := NoRoot; parts := ["aX"%string] |}) log'
    /\ In (Copy (source_file self)
             {| root := NoRoot; parts := ["aX"; "aX.sfd"]%string |}) log'
    /\ In (FontGenerate
             {| root := Slash;
                parts := ["home"; "user"; "fonts"; "aX"; "aX.ttf"]%string |}
             (font self)) log'.
Proof.
  eexists. eexists. split; [vm_compute; reflexivity|].
  apply (main_output_location
           (sample_env (sample_config "a.sfd" "aX" 91) font_1000_800_600) _ _
           ltac:(vm_compute; reflexivity)); try reflexivity.
  repeat constructor.
Defined.

(** * Inputs for which the new ascent is exact *)

(** True division is exact when the quotient is a dyadic number [R / 2 ^ g]
    with [R] below [2 ^ 53]. *)
Lemma int_truediv_exact A B R g :
  0 < A < 2 ^ 53 -> 0 < B < 2 ^ 53 ->
  0 <= g -> 0 < R < 2 ^ 53 -> A * 2 ^ g = B * R ->
  exists m e,
    int_truediv A B = inr (S754_finite false m e)
    /\ 2 ^ 52 <= Z.pos m < 2 ^ 53
    /\ -105 <= e <= 0
    /\ Z.pos m * B = A * 2 ^ (- e).
Proof.
  intros HA HB Hg HR Hrep. unfold int_truediv.
  destruct (Z.eqb_spec B 0) as [|_]; [lia|].
  destruct (Z.eqb_spec A 0) as [|_]; [lia|].
  replace (A <? 0) with false by (symmetry; apply Z.ltb_ge; lia).
  replace (B <? 0) with false by (symmetry; apply Z.ltb_ge; lia).
  replace (Z.abs A) with A by lia. replace (Z.abs B) with B by lia.
  cbn [xorb].
  pose proof (Zdigits2_bounds A ltac:(lia)) as HdA.
  pose proof (Zdigits2_bounds B ltac:(lia)) as HdB.
  pose proof (Zdigits2_range A 0 53 ltac:(lia) ltac:(change (2 ^ 0) with 1; lia)) as HrA.
  pose proof (Zdigits2_range B 0 53 ltac:(lia) ltac:(change (2 ^ 0) with 1; lia)) as HrB.
  unfold SFdiv_core_binary. zdef. rewrite fexp_b64.
  set (dA := Zdigits2 A) in *. set (dB := Zdigits2 B) in *.
  replace (Z.min (Z.max (dA + 0 - (dB + 0) - 53) (-1074)) (0 - 0)) with (dA - dB - 53) by lia.
  replace (0 - 0 - (dA - dB - 53)) with (53 + dB - dA) by lia.
  set (s := 53 + dB - dA) in *.
  assert (Hs : 0 < s) by (unfold s; lia).
  replace (match s with 0 => A | Z.pos _ => Z.shiftl A s | Z.neg _ => 0 end) with (A * 2 ^ s)
    by (destruct s; try lia; rewrite Z.shiftl_mul_pow2 by lia; reflexivity).
  rewrite div_eucl_div_mod, loc_of_new_location by lia.
  set (N := A * 2 ^ s) in *.
  assert (HN : 2 ^ 52 * 2 ^ dB <= N < 2 ^ 54 * 2 ^ (dB - 1)).
  { unfold N.
    replace (2 ^ 52 * 2 ^ dB) with (2 ^ (dA - 1) * 2 ^ s)
      by (rewrite <- !Z.pow_add_r by lia; f_equal; unfold s; lia).
    replace (2 ^ 54 * 2 ^ (dB - 1)) with (2 ^ dA * 2 ^ s)
      by (rewrite <- !Z.pow_add_r by lia; f_equal; unfold s; lia).
    pose proof (Z.pow_pos_nonneg 2 s ltac:(lia) ltac:(lia)). nia. }
  assert (Hq : 2 ^ 52 <= N / B < 2 ^ 54).
  { split.
    - apply Z.div_le_lower_bound; [lia|]. nia.
    - apply Z.div_lt_upper_bound; [lia|]. nia. }
  pose proof (Zdigits2_range (N / B) 52 54 ltac:(lia) Hq) as Hdq.
  assert (HN0 : 0 <= N) by (pose proof (Z.pow_pos_nonneg 2 dB); nia).
  destruct (binary_round_aux_normal false N B (dA - dB - 53) HN0 ltac:(lia))
    as (m & e & Hr & He & Hm & Hhalf & _); try lia.
  exists m, e. rewrite Hr. split; [reflexivity|]. split; [assumption|].
  set (k := Zdigits2 (N / B) - 53) in *.
  set (j := e - (dA - dB - 53)) in *.
  assert (Hj : k <= j <= k + 1) by (unfold j; lia).
  (* both sides are multiples of [B * 2 ^ k] *)
  assert (Hgs : g <= s).
  { destruct (Z.le_gt_cases g s) as [|Hgt]; [assumption|exfalso].
    assert (Hp : 2 ^ (s + 1) <= 2 ^ g) by (apply Z.pow_le_mono_r; lia).
    rewrite Z.pow_add_r in Hp by lia. change (2 ^ 1) with 2 in Hp.
    assert (Hds : 2 ^ (dA - 1) * (2 ^ s * 2) = 2 ^ dB * 2 ^ 53).
    { rewrite <- (Z.pow_add_r 2 dB 53) by lia.
      replace (2 ^ s * 2) with (2 ^ (s + 1))
        by (rewrite Z.pow_add_r by lia; reflexivity).
      rewrite <- Z.pow_add_r by lia. f_equal. unfold s. lia. }
    pose proof (Z.pow_pos_nonneg 2 s ltac:(lia) ltac:(lia)) as HP.
    pose proof (Z.pow_pos_nonneg 2 (dA - 1) ltac:(lia) ltac:(lia)) as HP1.
    assert (S1 : 2 ^ (dA - 1) * (2 ^ s * 2) <= A * 2 ^ g) by nia.
    assert (S2 : B * R < 2 ^ dB * 2 ^ 53) by nia.
    lia. }
  assert (HNR : N = B * R * 2 ^ (s - g)).
  { unfold N. replace s with (g + (s - g)) at 1 by lia.
    rewrite Z.pow_add_r by lia. rewrite Z.mul_assoc, Hrep. reflexivity. }
  assert (Hqeq : N / B = R * 2 ^ (s - g)).
  { rewrite HNR. replace (B * R * 2 ^ (s - g)) with (R * 2 ^ (s - g) * B) by ring.
    apply Z.div_mul. lia. }
  assert (Hksg : Zdigits2 (N / B) - 53 <= s - g).
  { pose proof (Z.pow_pos_nonneg 2 (s - g) ltac:(lia) ltac:(lia)) as HP.
    assert (Hup : N / B < 2 ^ (53 + (s - g))).
    { rewrite Hqeq, Z.pow_add_r by lia. nia. }
    pose proof (Zdigits2_range (N / B) 52 (53 + (s - g)) ltac:(lia)
                  (conj (proj1 Hq) Hup)). lia. }
  assert (Hpk : 2 ^ j = 2 ^ k * 2 ^ (j - k))
    by (rewrite <- Z.pow_add_r by lia; f_equal; lia).
  pose proof (Z.pow_pos_nonneg 2 k ltac:(lia) ltac:(lia)) as Hk0.
  pose proof (Z.pow_pos_nonneg 2 (j - k) ltac:(lia) ltac:(lia)) as Hjk0.
  assert (Hk2 : 2 ^ k = 1 \/ 2 ^ k = 2).
  { assert (k = 0 \/ k = 1) as [->| ->] by lia; [left|right]; reflexivity. }
  assert (Hexact : Z.pos m * 2 ^ j * B = N).
  { set (U := B * 2 ^ k) in *.
    assert (HU : 0 < U) by (unfold U; nia).
    assert (HNU : exists c, N = c * U).
    { exists (R * 2 ^ (s - g - k)). unfold U. rewrite HNR.
      replace (s - g) with ((s - g - k) + k) at 1 by lia.
      rewrite Z.pow_add_r by lia. ring. }
    destruct HNU as [c Hc].
    assert (HmU : Z.pos m * 2 ^ j * B = (Z.pos m * 2 ^ (j - k)) * U)
      by (unfold U; rewrite Hpk; ring).
    rewrite HmU in Hhalf |- *. rewrite Hc in Hhalf |- *.
    fold U in Hhalf.
    set (x := Z.pos m * 2 ^ (j - k)) in *.
    replace (x * U - c * U) with ((x - c) * U) in Hhalf by ring.
    rewrite Z.abs_mul, (Z.abs_eq U) in Hhalf by lia.
    assert (Ha : Z.abs (x - c) = 0).
    { pose proof (Z.abs_nonneg (x - c)).
      destruct (Z.eq_dec (Z.abs (x - c)) 0) as [|Hne]; [assumption|exfalso].
      assert (U <= Z.abs (x - c) * U) by nia. lia. }
    assert (x = c) by lia. congruence. }
  assert (He0 : e <= 0).
  { destruct (Z.le_gt_cases e 0) as [|Hgt]; [assumption|exfalso].
    assert (Hjs : j = e + s) by (unfold j, s; lia).
    assert (2 ^ (s + 1) <= 2 ^ j) by (apply Z.pow_le_mono_r; lia).
    rewrite Z.pow_add_r in H by lia. change (2 ^ 1) with 2 in H.
    pose proof (Z.pow_pos_nonneg 2 s ltac:(lia) ltac:(lia)) as HP.
    unfold N in Hexact.
    change (2 ^ 53) with 9007199254740992 in *.
    change (2 ^ 52) with 4503599627370496 in *.
    set (P := 2 ^ s) in *. set (Q := 2 ^ j) in *.
    assert (S1 : Z.pos m * (2 * P) <= Z.pos m * Q) by nia.
    assert (S2 : Z.pos m * Q <= Z.pos m * Q * B) by nia.
    assert (S3 : 9007199254740992 * P <= Z.pos m * (2 * P)) by nia.
    assert (S4 : A * P < 9007199254740992 * P) by nia.
    lia. }
  split; [lia|].
  assert (Hjs : s = j + - e) by (unfold j, s; lia).
  unfold N in Hexact. rewrite Hjs, Z.pow_add_r in Hexact by lia.
  pose proof (Z.pow_pos_nonneg 2 j ltac:(lia) ltac:(lia)) as Hj0.
  apply (Z.mul_reg_l _ _ (2 ^ j)); [lia|].
  set (X := 2 ^ j) in *. set (Y := 2 ^ (- e)) in *. lia.
Qed.

(** The product of two normal floats is exact when the product of the
    mantissas has at most 53 significant bits. *)
Lemma float_mul_exact m1 e1 m2 e2 P t :
  2 ^ 52 <= Z.pos m1 < 2 ^ 53 -> 2 ^ 52 <= Z.pos m2 < 2 ^ 53 ->
  -1126 <= e1 + e2 <= 917 ->
  0 < P < 2 ^ 53 -> 0 <= t -> Z.pos m1 * Z.pos m2 = P * 2 ^ t ->
  exists m e,
    float_mul (S754_finite false m1 e1) (S754_finite false m2 e2)
      = S754_finite false m e
    /\ (F2Q (Z.pos m) e == F2Q P (e1 + e2 + t))%Q.
Proof.
  intros H1 H2 He12 HP Ht Hprod. unfold float_mul, SFmul. zdef. cbn [xorb].
  set (N := Z.pos (m1 * m2)).
  assert (HNeq : N = Z.pos m1 * Z.pos m2) by reflexivity.
  assert (HN : 2 ^ 104 <= N < 2 ^ 106).
  { change (2 ^ 104) with (2 ^ 52 * 2 ^ 52). change (2 ^ 106) with (2 ^ 53 * 2 ^ 53). nia. }
  pose proof (Zdigits2_range N 104 106 ltac:(lia) HN) as Hd.
  pose proof (binary_round_aux_normal false N 1 (e1 + e2) ltac:(lia) ltac:(lia)) as H.
  cbv zeta in H. rewrite Z.div_1_r, loc_of_1 in H.
  destruct H as (m & e & Hr & He & Hm & Hhalf & _); try lia.
  exists m, e. rewrite Hr. split; [reflexivity|].
  set (k := Zdigits2 N - 53) in *. set (j := e - (e1 + e2)) in *.
  pose proof (Z.pow_pos_nonneg 2 t ltac:(lia) Ht) as Ht0.
  assert (Hkt : k <= t).
  { assert (Hup : N < 2 ^ (53 + t)) by (rewrite Z.pow_add_r by lia; nia).
    pose proof (Zdigits2_range N 104 (53 + t) ltac:(lia) (conj (proj1 HN) Hup)).
    unfold k. lia. }
  pose proof (Z.pow_pos_nonneg 2 k ltac:(lia) ltac:(lia)) as Hk0.
  assert (Hexact : Z.pos m * 2 ^ j = N).
  { set (U := 2 ^ k) in *.
    assert (HNU : N = (P * 2 ^ (t - k)) * U).
    { rewrite HNeq, Hprod. unfold U. replace t with ((t - k) + k) at 1 by lia.
      rewrite Z.pow_add_r by lia. ring. }
    assert (HmU : Z.pos m * 2 ^ j = (Z.pos m * 2 ^ (j - k)) * U).
    { unfold U. replace j with ((j - k) + k) at 1 by lia.
      rewrite Z.pow_add_r by (unfold j; lia). ring. }
    rewrite Z.mul_1_r, Z.mul_1_l in Hhalf.
    rewrite HmU in Hhalf |- *. rewrite HNU in Hhalf |- *.
    set (x := Z.pos m * 2 ^ (j - k)) in *. set (c := P * 2 ^ (t - k)) in *.
    replace (x * U - c * U) with ((x - c) * U) in Hhalf by ring.
    rewrite Z.abs_mul, (Z.abs_eq U) in Hhalf by lia.
    assert (Ha : Z.abs (x - c) = 0).
    { pose proof (Z.abs_nonneg (x - c)).
      destruct (Z.eq_dec (Z.abs (x - c)) 0) as [|Hne]; [assumption|exfalso].
      assert (U <= Z.abs (x - c) * U) by nia. lia. }
    assert (x = c) by lia. congruence. }
  assert (E1 : (F2Q (Z.pos m) e == F2Q (Z.pos m * 2 ^ j) (e1 + e2))%Q).
  { rewrite F2Q_shift by (unfold j; lia). replace (e1 + e2 + j) with e by (unfold j; lia).
    reflexivity. }
  rewrite E1, Hexact, HNeq, Hprod, F2Q_shift by lia. reflexivity.
Qed.

Lemma exact_ceil_Qceiling n d :
  0 < d -> exact_ceil n d = Qceiling (inject_Z n / inject_Z d).
Proof.
  intros Hd. unfold exact_ceil, Qceiling. f_equal.
  rewrite Zdiv_Qdiv. apply Qfloor_comp.
  rewrite inject_Z_opp. unfold Qdiv. ring.
Qed.

(** When the quotient [fw * 2 / em] is a dyadic number [R / 2 ^ g] and its
    product [R * asc] with the old ascent is below [2 ^ 53], nothing is
    rounded and the new ascent is the exact ceiling. *)
Lemma new_ascent_exact fw em_ asc R g :
  0 < fw -> 0 < em_ < 2 ^ 53 -> 0 < asc ->
  0 <= g -> 0 < R -> fw * 2 * 2 ^ g = em_ * R -> R * asc < 2 ^ 53 ->
  fw * 2 < 2 ^ 53 ->
  new_ascent fw em_ asc = inr (exact_ceil (fw * 2 * asc) em_).
Proof.
  intros Hfw Hem Hasc Hg HR Hrep HP HA. unfold new_ascent.
  assert (HR53 : R < 2 ^ 53) by nia.
  assert (Hasc53 : asc < 2 ^ 53) by nia.
  destruct (int_truediv_exact (fw * 2) em_ R g ltac:(lia) Hem Hg ltac:(lia) Hrep)
    as (mq & eq & Hq & Hmq & Heq & Hvq).
  rewrite Hq. cbn [rbind].
  destruct (float_of_int_normal asc ltac:(lia) ltac:(lia))
    as (mc & ec & Hc & Hmc & Hec & Hvc).
  rewrite Hc. cbn [rbind].
  replace (asc <? 0) with false by (symmetry; apply Z.ltb_ge; lia).
  replace (Z.abs asc) with asc in Hvc by lia.
  pose proof (Z.pow_pos_nonneg 2 g ltac:(lia) Hg) as Hg0.
  pose proof (Z.pow_pos_nonneg 2 (- eq) ltac:(lia) ltac:(lia)) as Heq0.
  pose proof (Z.pow_pos_nonneg 2 (- ec) ltac:(lia) ltac:(lia)) as Hec0.
  (* the mantissa of the quotient is [R] shifted *)
  assert (HmqR : Z.pos mq * 2 ^ g = R * 2 ^ (- eq)).
  { apply (Z.mul_reg_l _ _ em_); [lia|].
    replace (em_ * (Z.pos mq * 2 ^ g)) with (Z.pos mq * em_ * 2 ^ g) by ring.
    rewrite Hvq. replace (fw * 2 * 2 ^ (- eq) * 2 ^ g) with (fw * 2 * 2 ^ g * 2 ^ (- eq)) by ring.
    rewrite Hrep. ring. }
  assert (Hge : g <= - eq).
  { destruct (Z.le_gt_cases g (- eq)) as [|Hgt]; [assumption|exfalso].
    assert (Hp : 2 ^ (- eq + 1) <= 2 ^ g) by (apply Z.pow_le_mono_r; lia).
    rewrite Z.pow_add_r in Hp by lia. change (2 ^ 1) with 2 in Hp.
    change (2 ^ 53) with 9007199254740992 in *.
    change (2 ^ 52) with 4503599627370496 in *.
    set (X := 2 ^ (- eq)) in *. set (Y := 2 ^ g) in *.
    assert (S1 : 4503599627370496 * (X * 2) <= Z.pos mq * Y) by nia.
    assert (S2 : R * X < 9007199254740992 * X) by nia.
    lia. }
  assert (Hmq' : Z.pos mq = R * 2 ^ (- eq - g)).
  { apply (Z.mul_reg_r _ _ (2 ^ g)); [lia|]. rewrite HmqR.
    replace (- eq) with ((- eq - g) + g) at 1 by lia.
    rewrite Z.pow_add_r by lia. ring. }
  destruct (float_mul_exact mq eq mc ec (R * asc) (- eq - g + - ec)
              Hmq Hmc ltac:(lia) ltac:(nia) ltac:(lia))
    as (m & e & Hr & Hval).
  { rewrite Hmq', Hvc, Z.pow_add_r by lia. ring. }
  replace (fw * 2 <? 0) with false in * by (symmetry; apply Z.ltb_ge; lia).
  replace (em_ <? 0) with false in * by (symmetry; apply Z.ltb_ge; lia).
  cbn [xorb] in *. rewrite Hr. cbn [math_ceil cond_Zopp]. f_equal.
  rewrite ceil_dyadic_Qceiling, exact_ceil_Qceiling by lia.
  apply Qceiling_comp. rewrite Hval.
  replace (eq + ec + (- eq - g + - ec)) with (- g) by lia.
  unfold F2Q. rewrite Qpower_opp, <- (Zpower_Qpower 2 g Hg).
  assert (Hi : (inject_Z (fw * 2 * asc) * inject_Z (2 ^ g)
                == inject_Z (R * asc) * inject_Z em_)%Q).
  { rewrite <- !inject_Z_mult. apply inject_Z_injective.
    replace (fw * 2 * asc * 2 ^ g) with (fw * 2 * 2 ^ g * asc) by ring.
    rewrite Hrep. ring. }
  assert (N1 : ~ (inject_Z (2 ^ g) == 0)%Q)
    by (change 0%Q with (inject_Z 0); rewrite inject_Z_injective; lia).
  assert (N2 : ~ (inject_Z em_ == 0)%Q)
    by (change 0%Q with (inject_Z 0); rewrite inject_Z_injective; lia).
  change (inject_Z 2 ^ g)%Q with (inject_Z 2 ^ g)%Q.
  apply (Qmult_inj_r _ _ (inject_Z (2 ^ g) * inject_Z em_)).
  { intros Hz. apply Qmult_integral in Hz. tauto. }
  transitivity (inject_Z (R * asc) * inject_Z em_)%Q; [field; exact N1|].
  rewrite <- Hi. field. exact N2.
Qed.

Lemma exact_ceil_multiple d c : 0 < d -> exact_ceil (d * c) d = c.
Proof.
  intros Hd. unfold exact_ceil.
  replace (- (d * c)) with ((- c) * d) by ring. rewrite Z.div_mul by lia. lia.
Qed.

(** An em size that divides twice the width: the new ascent is the old one
    times the integer ratio. *)
Lemma new_ascent_integer_ratio fw em_ asc q :
  0 < em_ -> 0 < q -> fw * 2 = em_ * q -> 0 < asc ->
  fw * 2 < 2 ^ 53 -> q * asc < 2 ^ 53 ->
  new_ascent fw em_ asc = inr (q * asc).
Proof.
  intros Hem Hq Hrep Hasc HA HP.
  assert (Hem53 : em_ < 2 ^ 53) by nia.
  assert (Hfw : 0 < fw) by nia.
  assert (Hrep0 : fw * 2 * 2 ^ 0 = em_ * q) by (change (2 ^ 0) with 1; lia).
  rewrite (new_ascent_exact fw em_ asc q 0 Hfw (conj Hem Hem53) Hasc
             ltac:(lia) Hq Hrep0 HP HA).
  rewrite Hrep. replace (em_ * q * asc) with (em_ * (q * asc)) by ring.
  rewrite exact_ceil_multiple by lia. reflexivity.
Qed.

(** A font that already has the 1:2 ratio, its em size being twice the
    width of [x], keeps its ascent: the transformation is a fixed point on
    its own output. *)
Theorem x_version_font_keeps_its_ascent (t : Z) (f : Font) (x : Glyph) :
  glyphs f "x" = Some x ->
  em f = 2 * width x ->
  0 < width x < 2 ^ 31 ->
  0 < ascent f < 2 ^ 31 ->
  exists f',
    modify_metrics (YInt t) f = inr f'
    /\ ascent f' = ascent f
    /\ descent f' = em f - ascent f.
Proof.
  intros Hx Hem Hw Hasc.
  change (2 ^ 31) with 2147483648 in *.
  assert (P53 : 2 ^ 53 = 9007199254740992) by reflexivity.
  assert (Ha : new_ascent (width x) (em f) (ascent f) = inr (1 * ascent f))
    by (apply new_ascent_integer_ratio; lia).
  rewrite Z.mul_1_l in Ha.
  destruct (modify_metrics_ok t f x _ Hx Ha) as (f' & Hf').
  exists f'. split; [exact Hf'|].
  destruct (modify_metrics_inv _ _ _ Hf') as (x' & a' & t' & Hx' & Ha' & _ & H1 & H2 & _).
  rewrite Hx in Hx'. injection Hx' as <-.
  rewrite Ha in Ha'. injection Ha' as <-. lia.
Qed.

Lemma x_version_font_keeps_its_ascent_witness :
  glyphs font_x_version "x" = Some {| width := 600 |}
  /\ exists f',
       modify_metrics (YInt 91) font_x_version = inr f'
       /\ ascent f' = 960 /\ descent f' = 1200 - 960.
Proof.
  split; [reflexivity|].
  apply (x_version_font_keeps_its_ascent 91 font_x_version {| width := 600 |});
    cbn; [reflexivity|lia..].
Defined.

(** An em size that is a power of two, as TrueType fonts have: nothing is
    rounded before the ceiling, and the new ascent is the exact ceiling of
    [width * 2 * ascent / em] (for operands whose product fits 53 bits). *)
Theorem power_of_two_em_gives_exact_ceiling (t : Z) (f : Font) (x : Glyph) (k : Z) :
  glyphs f "x" = Some x ->
  em f = 2 ^ k -> 0 <= k <= 52 ->
  0 < width x -> 0 < ascent f ->
  width x * 2 * ascent f < 2 ^ 53 ->
  exists f',
    modify_metrics (YInt t) f = inr f'
    /\ ascent f' = exact_ceil (width x * 2 * ascent f) (em f).
Proof.
  intros Hx Hem Hk Hw Hasc HP.
  pose proof (Z.pow_pos_nonneg 2 k ltac:(lia) ltac:(lia)) as Hk0.
  assert (Hk53 : 2 ^ k < 2 ^ 53) by (apply Z.pow_lt_mono_r; lia).
  assert (Ha : new_ascent (width x) (em f) (ascent f)
               = inr (exact_ceil (width x * 2 * ascent f) (em f))).
  { assert (HA : width x * 2 < 2 ^ 53) by nia.
    assert (Hem' : 0 < em f < 2 ^ 53) by (rewrite Hem; lia).
    apply (new_ascent_exact _ _ _ (width x * 2) k Hw Hem' Hasc
             ltac:(lia) ltac:(lia)); [rewrite Hem; ring|lia|exact HA]. }
  destruct (modify_metrics_ok t f x _ Hx Ha) as (f' & Hf').
  exists f'. split; [exact Hf'|].
  destruct (modify_metrics_inv _ _ _ Hf') as (x' & a' & t' & Hx' & Ha' & _ & H1 & _).
  rewrite Hx in Hx'. injection Hx' as <-.
  rewrite Ha in Ha'. injection Ha' as <-. exact H1.
Qed.

Lemma power_of_two_em_gives_exact_ceiling_witness :
  glyphs font_2048 "x" = Some {| width := 1233 |}
  /\ exists f',
       modify_metrics (YInt 91) font_2048 = inr f'
       /\ ascent f' = exact_ceil (1233 * 2 * 1638) 2048.
Proof.
  split; [reflexivity|].
  apply (power_of_two_em_gives_exact_ceiling 91 font_2048 {| width := 1233 |} 11);
    cbn; [reflexivity|reflexivity|lia..].
Defined.

(** ** Degenerate metrics that are not rejected *)

Lemma Qceiling_nonpos x : (x <= 0)%Q -> Qceiling x <= 0.
Proof.
  intros Hx. apply Qceiling_le_Z. exact Hx.
Qed.

(** A negative em size is not rejected: the metric block returns a font
    whose ascent is at most 0 and whose descent is at least twice the
    width. *)
Theorem negative_em_is_not_rejected (t : Z) (f : Font) (x : Glyph) :
  glyphs f "x" = Some x ->
  - 2 ^ 31 <= em f < 0 ->
  0 < width x < 2 ^ 31 ->
  0 < ascent f < 2 ^ 31 ->
  exists f',
    modify_metrics (YInt t) f = inr f'
    /\ ascent f' <= 0
    /\ 2 * width x <= descent f'.
Proof.
  intros Hx Hem Hw Hasc.
  change (- 2 ^ 31) with (-2147483648) in *. change (2 ^ 31) with 2147483648 in *.
  assert (P53 : 2 ^ 53 = 9007199254740992) by reflexivity.
  assert (Ha : exists a, new_ascent (width x) (em f) (ascent f) = inr a /\ a <= 0).
  { unfold new_ascent.
    destruct (int_truediv_normal (width x * 2) (em f) ltac:(lia) ltac:(lia) ltac:(lia) ltac:(lia))
      as (mq & eq & Hq & Hmq & Heq & _).
    rewrite Hq. cbn [rbind].
    destruct (float_of_int_normal (ascent f) ltac:(lia) ltac:(lia))
      as (mc & ec & Hc & Hmc & Hec & _).
    rewrite Hc. cbn [rbind].
    destruct (float_mul_normal (xorb (width x * 2 <? 0) (em f <? 0)) mq eq
                (ascent f <? 0) mc ec Hmq Hmc ltac:(lia)) as (m & e & Hr & _).
    rewrite Hr.
    replace (width x * 2 <? 0) with false by (symmetry; apply Z.ltb_ge; lia).
    replace (em f <? 0) with true by (symmetry; apply Z.ltb_lt; lia).
    replace (ascent f <? 0) with false by (symmetry; apply Z.ltb_ge; lia).
    cbn [xorb math_ceil cond_Zopp].
    eexists. split; [reflexivity|].
    rewrite ceil_dyadic_Qceiling. apply Qceiling_nonpos.
    pose proof (F2Q_pos m e) as Hpos. unfold F2Q in *.
    change (- Z.pos m) with (Z.neg m).
    assert (E : (inject_Z (Z.neg m) == - inject_Z (Z.pos m))%Q)
      by (rewrite <- inject_Z_opp; reflexivity).
    rewrite E. set (P := (2 ^ e)%Q) in *. set (M := inject_Z (Z.pos m)) in *.
    assert (Hn : (- M * P == - (M * P))%Q) by ring.
    rewrite Hn. lra. }
  destruct Ha as (a & Ha & Hle).
  destruct (modify_metrics_ok t f x a Hx Ha) as (f' & Hf').
  exists f'. split; [exact Hf'|].
  destruct (modify_metrics_inv _ _ _ Hf') as (x' & a' & t' & Hx' & Ha' & _ & H1 & H2 & _).
  rewrite Hx in Hx'. injection Hx' as <-.
  rewrite Ha in Ha'. injection Ha' as <-. lia.
Qed.

Lemma negative_em_is_not_rejected_witness :
  glyphs font_negative_em "x" = Some {| width := 600 |}
  /\ exists f',
       modify_metrics (YInt 91) font_negative_em = inr f'
       /\ ascent f' <= 0
       /\ 2 * 600 <= descent f'.
Proof.
  split; [reflexivity|].
  apply (negative_em_is_not_rejected 91 font_negative_em {| width := 600 |});
    cbn; [reflexivity|lia..].
Defined.

(** A glyph [x] of width zero is not rejected either: for a non-zero em
    size the new ascent and the new descent are both zero, and so are the
    fields copied from them. *)
Theorem zero_width_gives_zero_metrics (t : Z) (f : Font) (x : Glyph) :
  glyphs f "x" = Some x ->
  width x = 0 ->
  em f <> 0 ->
  c_int (ascent f) ->
  exists f',
    modify_metrics (YInt t) f = inr f'
    /\ ascent f' = 0 /\ descent f' = 0
    /\ os2_winascent f' = 0 /\ os2_windescent f' = 0
    /\ os2_typoascent f' = 0 /\ os2_typodescent f' = 0
    /\ hhea_ascent f' = 0 /\ hhea_descent f' = 0
    /\ upos f' = t.
Proof.
  intros Hx Hw Hem Hasc. unfold c_int in Hasc.
  change (- 2 ^ 31) with (-2147483648) in *. change (2 ^ 31) with 2147483648 in *.
  assert (P53 : 2 ^ 53 = 9007199254740992) by reflexivity.
  assert (Ha : new_ascent (width x) (em f) (ascent f) = inr 0).
  { unfold new_ascent, int_truediv. rewrite Hw.
    destruct (Z.eqb_spec (em f) 0) as [|_]; [congruence|]. cbn [Z.mul Z.eqb rbind].
    destruct (Z.eq_dec (ascent f) 0) as [Hz|Hanz].
    - rewrite Hz, float_of_int_zero. reflexivity.
    - destruct (float_of_int_normal (ascent f) Hanz ltac:(lia)) as (m & e & Hr & _).
      rewrite Hr. reflexivity. }
  destruct (modify_metrics_ok t f x 0 Hx Ha) as (f' & Hf').
  exists f'. split; [exact Hf'|].
  destruct (modify_metrics_inv _ _ _ Hf') as (x' & a' & t' & Hx' & Ha' & Ht' & HH).
  rewrite Hx in Hx'. injection Hx' as <-.
  rewrite Ha in Ha'. injection Ha' as <-. injection Ht' as <-.
  decompose [and] HH. repeat split; lia.
Qed.

Lemma zero_width_gives_zero_metrics_witness :
  glyphs font_zero_width "x" = Some {| width := 0 |}
  /\ exists f',
       modify_metrics (YInt 91) font_zero_width = inr f'
       /\ ascent f' = 0 /\ descent f' = 0
       /\ os2_winascent f' = 0 /\ os2_windescent f' = 0
       /\ os2_typoascent f' = 0 /\ os2_typodescent f' = 0
       /\ hhea_ascent f' = 0 /\ hhea_descent f' = 0
       /\ upos f' = 91.
Proof.
  split; [reflexivity|].
  apply (zero_width_gives_zero_metrics 91 font_zero_width {| width := 0 |});
    try reflexivity; unfold c_int; cbn; lia.
Defined.
